(** * my-anatomy-site: the per-frame arithmetic of app/page.tsx

    The page renders one 3D model; its logic is a handful of per-frame
    formulas (camera waypoints, easing, scroll normalisation) and a few
    DOM event handlers.  This development embeds those functions and
    proves the properties stated about them.

    Numbers.  A JavaScript [number] is modelled as an exact rational
    ([Q]); equalities between computed numbers are stated with [==].
    Rounding of IEEE doubles, infinities and NaN are outside the model;
    the one place where rounding changes what the page does in kind,
    the easing update close to its target, is also given in binary64
    ([Double.ease]).
    A value that may be [undefined] or [null] is an [option]. *)

From Stdlib Require Import QArith Qabs Qround Qminmax Lqa Lia ZArith List Bool String.
From Stdlib Require Floats.PrimFloat.
Import ListNotations.

Local Open Scope Q_scope.

Set Warnings "-register-all".

(** ** JavaScript primitives used by the page *)

Module Js.

(** [a < b] on numbers, as a boolean test. *)
Definition ltb (a b : Q) : bool := negb (Qle_bool b a).

(** [x || d] on a number: [undefined], [null] and [0] are falsy. *)
Definition or_else (x : option Q) (d : Q) : Q :=
  match x with
  | Some v => if Qeq_bool v 0 then d else v
  | None => d
  end.

(** [x ?? d]. *)
Definition nullish {A : Type} (x : option A) (d : A) : A :=
  match x with
  | Some v => v
  | None => d
  end.

(** [typeof x === "number" ? x : 0]. *)
Definition number_or_zero (x : option Q) : Q := nullish x 0.

(** [Math.floor], [Math.round] (round half up), [Math.abs]. *)
Definition floor (x : Q) : Z := Qfloor x.
Definition round (x : Q) : Z := Qfloor (x + (1 # 2)).
Definition abs (x : Q) : Q := Qabs x.

(** [Math.min(Math.max(x, lo), hi)]. *)
Definition clamp (x lo hi : Q) : Q := Qmin (Qmax x lo) hi.

(** [arr[i]] for an integer index: [undefined] out of range. *)
Definition index {A : Type} (arr : list A) (i : Z) : option A :=
  if (i <? 0)%Z then None else nth_error arr (Z.to_nat i).

(** [arr.length]. *)
Definition length {A : Type} (arr : list A) : Z := Z.of_nat (List.length arr).

End Js.

(** ** CONFIG *)

(** [Math.PI]: the double nearest to pi, 884279719003555 / 2^48. *)
Definition Math_PI : Q := 884279719003555 # 281474976710656.

Definition MODEL_SCALE : Q := 12 # 10.
Definition MODEL_Y_OFFSET : Q := - (1 # 2).
Definition ROTATION_INTENSITY : Q := 9 # 10.
Definition VERTICAL_BOB : Q := 6 # 10.
Definition HOVER_POINTER_ROT_MAX : Q := 45 # 100.
Definition DRAG_SENSITIVITY : Q := Math_PI * (14 # 10).

(** ** Data *)

Record Vector3 : Type := mkVector3 { vx : Q; vy : Q; vz : Q }.

(** One entry of [sectionTargets]. *)
Record Target : Type := mkTarget { camY : Q; camZ : Q; lookAt : Vector3 }.

Record BBox : Type := mkBBox {
  bmin : Vector3;
  bmax : Vector3;
  center : Vector3;
  size : Vector3;
  height : Q
}.

(** Componentwise equality of numbers up to [==]. *)
Definition Vector3_eq (u v : Vector3) : Prop :=
  vx u == vx v /\ vy u == vy v /\ vz u == vz v.

(** What the rig asks of the camera on one frame: the vertical
    position it eases toward and the point handed to [camera.lookAt]. *)
Record CamGoal : Type := mkCamGoal { targetY : Q; look : Vector3 }.

Definition CamGoal_eq (g h : CamGoal) : Prop :=
  targetY g == targetY h /\ Vector3_eq (look g) (look h).

(** ** CameraRig: the waypoint interpolator (the part of the frame
    callback from [const segments] to [const lz]) *)

Definition segments (targets : list Target) : Q :=
  Qmax 1 (inject_Z (Js.length targets - 1)).

Definition scaled (targets : list Target) (t : Q) : Q :=
  Js.clamp (t * segments targets) 0 (segments targets).

Definition lerp (a b localT : Q) : Q := a + (b - a) * localT.

(** Reading [a.camY] when [a] is [undefined] throws: [None]. *)
Definition cameraGoal (targets : list Target) (t : Q) : option CamGoal :=
  let sc := scaled targets t in
  let i := Js.floor sc in
  let localT := sc - inject_Z i in
  match Js.index targets i,
        Js.index targets (Z.min (i + 1) (Js.length targets - 1)) with
  | Some a, Some b =>
      Some (mkCamGoal
              (lerp (camY a) (camY b) localT)
              (mkVector3 (lerp (vx (lookAt a)) (vx (lookAt b)) localT)
                         (lerp (vy (lookAt a)) (vy (lookAt b)) localT)
                         (lerp (vz (lookAt a)) (vz (lookAt b)) localT)))
  | _, _ => None
  end.

(** The four-point blend as the specification words it: scale [t] to
    [s = clamp(t*3, 0, 3)], take [i = floor s] and the local fraction
    [s - i], and interpolate between waypoint [i] and waypoint
    [min(i+1, 3)]. *)
Definition spec_blend4 (w0 w1 w2 w3 : Target) (t : Q) : CamGoal :=
  let s := Js.clamp (t * 3) 0 3 in
  let i := Qfloor s in
  let f := s - inject_Z i in
  let way (k : Z) : Target :=
    if (k =? 0)%Z then w0 else if (k =? 1)%Z then w1
    else if (k =? 2)%Z then w2 else w3 in
  let a := way i in
  let b := way (Z.min (i + 1) 3) in
  mkCamGoal (camY a + (camY b - camY a) * f)
            (mkVector3 (vx (lookAt a) + (vx (lookAt b) - vx (lookAt a)) * f)
                       (vy (lookAt a) + (vy (lookAt b) - vy (lookAt a)) * f)
                       (vz (lookAt a) + (vz (lookAt b) - vz (lookAt a)) * f)).

(** ** Easing: [v += (target - v) * a] *)

Definition ease (a v target : Q) : Q := v + (target - v) * a.

(** [n] frames of easing toward a fixed target. *)
Fixpoint ease_iter (a target : Q) (n : nat) (v : Q) : Q :=
  match n with
  | O => v
  | S k => ease a (ease_iter a target k v) target
  end.


(** The rates the page uses: model Y rotation and camera height 0.12,
    model X rotation 0.06, model height 0.08. *)
Definition RATE_ROT_Y : Q := 12 # 100.
Definition RATE_ROT_X : Q := 6 # 100.
Definition RATE_POS_Y : Q := 8 # 100.
Definition RATE_CAM_Y : Q := 12 # 100.

Definition easingRates : list Q := [RATE_ROT_Y; RATE_ROT_X; RATE_POS_Y; RATE_CAM_Y].

(** ** Scroll normalisation (CameraRig, ScrollOverlay, ScrollBadge) *)

(** What the handlers read from [window] and [document]. *)
Record WindowMetrics : Type := mkWindow {
  scrollY : option Q;
  pageYOffset : option Q;
  docScrollHeight : option Q;   (* document.documentElement.scrollHeight *)
  bodyScrollHeight : option Q;  (* document.body.scrollHeight *)
  innerHeight : option Q;
  innerWidth : option Q
}.

Definition readScrollY (w : WindowMetrics) : Q :=
  Js.or_else (scrollY w) (Js.or_else (pageYOffset w) 0).

Definition readDocH (w : WindowMetrics) : Q :=
  Js.or_else (docScrollHeight w) (Js.or_else (bodyScrollHeight w) 1).

Definition readWinH (w : WindowMetrics) : Q := Js.or_else (innerHeight w) 1.

Definition maxScroll (w : WindowMetrics) : Q := Qmax 1 (readDocH w - readWinH w).

Definition windowNorm (w : WindowMetrics) : Q :=
  Js.clamp (readScrollY w / maxScroll w) 0 1.

(** The normalisation as the specification words it. *)
Definition spec_norm (sY docH winH : Q) : Q :=
  Qmin (Qmax (sY / Qmax 1 (docH - winH)) 0) 1.

(** ** ScrollBadge *)

Record BadgeState : Type := mkBadge {
  scrolled : Q;
  rafId : option Z
}.

Definition badge_init : BadgeState := mkBadge 0 None.

(** [update]: the animation-frame callback. *)
Definition badge_update (w : WindowMetrics) (b : BadgeState) : BadgeState :=
  mkBadge (windowNorm w) None.

(** [onScroll]: schedule [update] unless one is pending; [handle] is
    what [requestAnimationFrame] returns. *)
Definition badge_onScroll (handle : Z) (b : BadgeState) : BadgeState :=
  match rafId b with
  | None => mkBadge (scrolled b) (Some handle)
  | Some _ => b
  end.

(** The number printed before the percent sign. *)
Definition badge_percent (b : BadgeState) : Z := Js.round (scrolled b * 100).

Inductive BadgeEvent : Type :=
  | BadgeScroll (handle : Z)
  | BadgeResize (handle : Z)
  | BadgeAnimationFrame (w : WindowMetrics).

Definition badge_step (e : BadgeEvent) (b : BadgeState) : BadgeState :=
  match e with
  | BadgeScroll h => badge_onScroll h b
  | BadgeResize h => badge_onScroll h b
  | BadgeAnimationFrame w => badge_update w b
  end.

Definition badge_run (es : list BadgeEvent) (b : BadgeState) : BadgeState :=
  fold_left (fun s e => badge_step e s) es b.

(** ** ModelInstance *)

Definition ROTATION_FIX : Vector3 := mkVector3 0 0 0.

(** The refs [rotYRef], [rotXRef], [posYRef]. *)
Record ModelRefs : Type := mkModelRefs {
  rotYRef : Q;
  rotXRef : Q;
  posYRef : Q
}.

Definition modelRefs_init : ModelRefs := mkModelRefs 0 0 MODEL_Y_OFFSET.

(** The fields of the [group] object that the frame callback writes. *)
Record Group : Type := mkGroup {
  rotation_x : Q;
  rotation_y : Q;
  group_position_y : Q
}.

Definition group_init : Group := mkGroup (vx ROTATION_FIX) (vy ROTATION_FIX) MODEL_Y_OFFSET.

(** The three targets of one frame. *)
Record ModelGoal : Type := mkModelGoal {
  targetCombinedY : Q;
  targetBaseRotX : Q;
  modelTargetY : Q
}.

Definition modelGoal (t pointerX dragRotation : Q) : ModelGoal :=
  let targetBaseRotY := (1 - t * ROTATION_INTENSITY) * Math_PI * (2 # 100) in
  let targetBaseRotX := (t - (1 # 2)) * (6 # 100) in
  let targetY := MODEL_Y_OFFSET + ((1 # 2) - t) * VERTICAL_BOB in
  let pointerHoverY := pointerX * HOVER_POINTER_ROT_MAX in
  let targetCombinedY := targetBaseRotY + pointerHoverY + dragRotation in
  mkModelGoal targetCombinedY targetBaseRotX targetY.

(** One frame of [ModelInstance].  [offset] is [scroll.offset]; the
    last component is the argument passed to [onApplyRotation], if it
    was called. *)
Definition ModelInstance_frame (offset : option Q) (pointerX dragRotation : Q)
    (refs : ModelRefs) (groupRef : option Group)
  : ModelRefs * option Group * option Q :=
  match groupRef with
  | None => (refs, None, None)
  | Some _ =>
      let t := Js.nullish offset 0 in
      let goal := modelGoal t pointerX dragRotation in
      let rotY := ease RATE_ROT_Y (rotYRef refs) (targetCombinedY goal) in
      let rotX := ease RATE_ROT_X (rotXRef refs) (targetBaseRotX goal) in
      let posY := ease RATE_POS_Y (posYRef refs) (modelTargetY goal) in
      let g := mkGroup (vx ROTATION_FIX + rotX) (vy ROTATION_FIX + rotY) posY in
      (mkModelRefs rotY rotX posY, Some g, Some (rotation_y g))
  end.

(** The earlier revision of the page (no drag): the Y target is the
    base rotation plus the pointer term only. *)
Module Hover.

Definition POINTER_ROT_MAX : Q := 45 # 100.

Definition modelGoal (t pointerX : Q) : ModelGoal :=
  let targetBaseRotY := (1 - t * ROTATION_INTENSITY) * Math_PI * (2 # 100) in
  let targetBaseRotX := (t - (1 # 2)) * (6 # 100) in
  let targetY := MODEL_Y_OFFSET + ((1 # 2) - t) * VERTICAL_BOB in
  let pointerTargetY := pointerX * POINTER_ROT_MAX in
  let targetCombinedY := targetBaseRotY + pointerTargetY in
  mkModelGoal targetCombinedY targetBaseRotX targetY.

End Hover.

(** ** CameraRig *)

Record RigRefs : Type := mkRig {
  lastDrei : option Q;
  lastChangeTime : Q;
  useWindowFallback : bool;
  initialZ : option Q
}.

(** The refs at mount; [now] is [performance.now()] at that moment. *)
Definition rig_init (now : Q) : RigRefs := mkRig None now false None.

(** The camera fields the rig writes; [lookingAt] is the last point
    given to [camera.lookAt]. *)
Record Camera : Type := mkCamera {
  position_y : Q;
  position_z : Q;
  lookingAt : option Vector3
}.

(** [<Canvas camera={{ position: [0, 1.6, 4] }}>]. *)
Definition camera_init : Camera := mkCamera (16 # 10) 4 None.

Definition CHANGE_EPS : Q := 1 # 100000.
Definition ZERO_EPS : Q := 1 # 1000000.
Definition IDLE_MS : Q := 300.

(** [if (initialZ.current === null) initialZ.current = camera.position.z]. *)
Definition captureInitialZ (cam : Camera) (r : RigRefs) : RigRefs :=
  match initialZ r with
  | None => mkRig (lastDrei r) (lastChangeTime r) (useWindowFallback r)
                  (Some (position_z cam))
  | Some _ => r
  end.

(** The choice of scroll source: the [if (lastDrei.current === null)]
    block of the frame callback. *)
Definition trackScrollSource (dreiOffset now : Q) (r : RigRefs) : RigRefs :=
  match lastDrei r with
  | None => mkRig (Some dreiOffset) now (useWindowFallback r) (initialZ r)
  | Some last =>
      if Js.ltb CHANGE_EPS (Js.abs (dreiOffset - last)) then
        mkRig (Some dreiOffset) now false (initialZ r)
      else if Js.ltb IDLE_MS (now - lastChangeTime r)
              && Js.ltb (Js.abs dreiOffset) ZERO_EPS then
        mkRig (lastDrei r) (lastChangeTime r) true (initialZ r)
      else r
  end.

Definition scrollFraction (dreiOffset : Q) (w : WindowMetrics) (r : RigRefs) : Q :=
  if useWindowFallback r then windowNorm w else dreiOffset.

(** The waypoints used while [sectionTargets] is [null]. *)
Definition defaultTargets (z : Q) : list Target :=
  [ mkTarget (16 # 10) z (mkVector3 0 (9 # 10) 0);
    mkTarget (6 # 10) z (mkVector3 0 (2 # 10) 0);
    mkTarget (- (6 # 10)) z (mkVector3 0 (- (6 # 10)) 0);
    mkTarget (- 2) z (mkVector3 0 (- (18 # 10)) 0) ].

(** One frame of [CameraRig]; [None] when the callback throws. *)
Definition CameraRig_frame (sectionTargets : option (list Target))
    (drei : option Q) (now : Q) (w : WindowMetrics)
    (r : RigRefs) (cam : Camera) : option (RigRefs * Camera) :=
  let r1 := captureInitialZ cam r in
  let dreiOffset := Js.number_or_zero drei in
  let r2 := trackScrollSource dreiOffset now r1 in
  let t := scrollFraction dreiOffset w r2 in
  let targets :=
    Js.nullish sectionTargets (defaultTargets (Js.nullish (initialZ r2) 4)) in
  match cameraGoal targets t with
  | None => None
  | Some goal =>
      let targetZ := Js.nullish (initialZ r2) (position_z cam) in
      Some (r2, mkCamera (ease RATE_CAM_Y (position_y cam) (targetY goal))
                         targetZ
                         (Some (look goal)))
  end.

(** The fallback rule as the specification words it: the window
    measurement is chosen exactly when the drei offset has stayed within
    1e-5 of the recorded one for more than 300 ms. *)
Definition spec_idle (dreiOffset now : Q) (r : RigRefs) : bool :=
  match lastDrei r with
  | None => false
  | Some last =>
      Qle_bool (Qabs (dreiOffset - last)) (1 # 100000)
      && Js.ltb 300 (now - lastChangeTime r)
  end.

(** The fallback is only ever on while the recorded drei offset sits
    at the top of the page. *)
Definition fallback_near_top (r : RigRefs) : Prop :=
  useWindowFallback r = true ->
  exists last, lastDrei r = Some last /\ Qabs last < CHANGE_EPS + ZERO_EPS.

(** ** SceneWithAutoTargets: waypoints from the bounding box *)

Definition sectionTargets (bbox : option BBox) : option (list Target) :=
  match bbox with
  | None => None
  | Some b =>
      let topY := vy (bmax b) in
      let bottomY := vy (bmin b) in
      let centerY := vy (center b) in
      let height := Js.or_else (Some (height b)) (Qmax 1 (topY - bottomY)) in
      let baseZ := Qmax 3 (height * 3) in
      let headCamY := topY + height * (15 # 100) in
      let headLookAt := mkVector3 0 (topY - height * (8 # 100)) 0 in
      let torsoCamY := centerY + height * (15 # 100) in
      let torsoLookAt := mkVector3 0 (centerY + height * (2 # 100)) 0 in
      let armsCamY := centerY - height * (2 # 10) in
      let armsLookAt := mkVector3 0 (centerY - height * (25 # 100)) 0 in
      let legsCamY := bottomY + height * (25 # 100) in
      let legsLookAt := mkVector3 0 (bottomY + height * (15 # 100)) 0 in
      Some [ mkTarget (headCamY + MODEL_Y_OFFSET) (baseZ * (9 # 10)) headLookAt;
             mkTarget (torsoCamY + MODEL_Y_OFFSET) (baseZ * (75 # 100)) torsoLookAt;
             mkTarget (armsCamY + MODEL_Y_OFFSET) (baseZ * (65 # 100)) armsLookAt;
             mkTarget (legsCamY + MODEL_Y_OFFSET) (baseZ * (55 # 100)) legsLookAt ]
  end.

(** A waypoint with its [camZ] replaced. *)
Definition withCamZ (f : Target -> Q) (w : Target) : Target :=
  mkTarget (camY w) (f w) (lookAt w).

(** What one frame of the rig is given: the bounding box known at
    that time, [scroll.offset], [performance.now()] and the window. *)
Record FrameInput : Type := mkFrame {
  f_bbox : option BBox;
  f_drei : option Q;
  f_now : Q;
  f_win : WindowMetrics
}.

(** Successive frames of the rig; [None] as soon as one throws. *)
Fixpoint rig_run (fs : list FrameInput) (r : RigRefs) (cam : Camera)
  : option (RigRefs * Camera) :=
  match fs with
  | [] => Some (r, cam)
  | f :: rest =>
      match CameraRig_frame (sectionTargets (f_bbox f)) (f_drei f) (f_now f)
                            (f_win f) r cam with
      | None => None
      | Some (r', cam') => rig_run rest r' cam'
      end
  end.

(** ** Page: pointer, touch and drag handlers *)

Record PageState : Type := mkPage {
  pointerX : Q;
  dragRotation : Q;
  appliedRotation : Q;
  draggingRef : bool;
  lastXRef : option Q
}.

Definition page_init : PageState := mkPage 0 0 0 false None.

(** [e.touches[0].clientX]; [None] when [!e.touches || e.touches.length === 0]. *)
Definition firstTouch (touches : option (list Q)) : option Q :=
  match touches with
  | Some (x :: _) => Some x
  | _ => None
  end.

Definition handleMouseMove (x : Q) (win : WindowMetrics) (s : PageState) : PageState :=
  let w := Js.or_else (innerWidth win) 1 in
  let nx := Js.clamp ((x / w) * 2 - 1) (- (1)) 1 in
  match draggingRef s, lastXRef s with
  | true, Some last =>
      let dx := (x - last) / w in
      mkPage nx (dragRotation s + dx * DRAG_SENSITIVITY) (appliedRotation s)
             (draggingRef s) (Some x)
  | _, _ =>
      mkPage nx (dragRotation s) (appliedRotation s) (draggingRef s) (lastXRef s)
  end.

Definition handleTouchMoveHover (touches : option (list Q)) (win : WindowMetrics)
    (s : PageState) : PageState :=
  match firstTouch touches with
  | None => s
  | Some x =>
      let w := Js.or_else (innerWidth win) 1 in
      let nx := Js.clamp ((x / w) * 2 - 1) (- (1)) 1 in
      match draggingRef s, lastXRef s with
      | true, Some last =>
          let dx := (x - last) / w in
          mkPage nx (dragRotation s + dx * DRAG_SENSITIVITY) (appliedRotation s)
                 (draggingRef s) (Some x)
      | _, _ =>
          mkPage nx (dragRotation s) (appliedRotation s) (draggingRef s) (lastXRef s)
      end
  end.

(** [onPointerDown], the writes to the refs.  The handler then calls
    [setPointerCapture] on the target; that call and what becomes of
    an exception it raises are in [onPointerDown_listener] below. *)
Definition onPointerDown (x : Q) (s : PageState) : PageState :=
  mkPage (pointerX s) (dragRotation s) (appliedRotation s) true (Some x).

Definition onPointerMove (x : Q) (win : WindowMetrics) (s : PageState) : PageState :=
  if negb (draggingRef s) then s
  else
    let w := Js.or_else (innerWidth win) 1 in
    let last := Js.nullish (lastXRef s) x in
    let dx := (x - last) / w in
    mkPage (pointerX s) (dragRotation s + dx * DRAG_SENSITIVITY) (appliedRotation s)
           (draggingRef s) (Some x).

Definition onPointerUp (s : PageState) : PageState :=
  mkPage (pointerX s) (dragRotation s) (appliedRotation s) false None.

Definition onTouchStart (touches : option (list Q)) (s : PageState) : PageState :=
  match firstTouch touches with
  | None => s
  | Some x => mkPage (pointerX s) (dragRotation s) (appliedRotation s) true (Some x)
  end.

Definition onTouchEnd (s : PageState) : PageState :=
  mkPage (pointerX s) (dragRotation s) (appliedRotation s) false None.

(** [onApplyRotation={(r) => setAppliedRotation(r)}]. *)
Definition onApplyRotation (r : Q) (s : PageState) : PageState :=
  mkPage (pointerX s) (dragRotation s) r (draggingRef s) (lastXRef s).

(** The events the page listens to on [window], with what each
    handler reads from the event. *)
Inductive DomEvent : Type :=
  | mousemove (clientX : Q)
  | touchmove (touches : option (list Q))
  | pointerdown (clientX : Q)
  | pointermove (clientX : Q)
  | pointerup
  | pointercancel
  | touchstart (touches : option (list Q))
  | touchend.

Definition dispatch (e : DomEvent) (win : WindowMetrics) (s : PageState) : PageState :=
  match e with
  | mousemove x => handleMouseMove x win s
  | touchmove ts => handleTouchMoveHover ts win s
  | pointerdown x => onPointerDown x s
  | pointermove x => onPointerMove x win s
  | pointerup => onPointerUp s
  | pointercancel => onPointerUp s
  | touchstart ts => onTouchStart ts s
  | touchend => onTouchEnd s
  end.

(** What [(e.target as Element)?.setPointerCapture?.(e.pointerId)]
    (or the matching release) does.  The DOM decides: the target is
    missing or has no such method and nothing is called, the call
    returns, or it throws a [DOMException] (for instance when
    [pointerId] is not an active pointer). *)
Inductive CaptureCall : Type :=
  | NotCalled
  | Returns
  | Raises.

(** How a listener ends, with the refs as it leaves them. *)
Inductive Completion : Type :=
  | Normal (s : PageState)
  | Thrown (s : PageState).

Definition exitState (c : Completion) : PageState :=
  match c with
  | Normal s => s
  | Thrown s => s
  end.

Definition threw (c : Completion) : bool :=
  match c with
  | Normal _ => false
  | Thrown _ => true
  end.

(** The whole of [onPointerDown]: the refs are written first, then
    the capture call runs with nothing around it. *)
Definition onPointerDown_listener (x : Q) (capture : CaptureCall) (s : PageState)
  : Completion :=
  let s' := onPointerDown x s in
  match capture with
  | Raises => Thrown s'
  | _ => Normal s'
  end.

(** The whole of [onPointerUp]: the release is inside [try { } catch {}]. *)
Definition onPointerUp_listener (release : CaptureCall) (s : PageState) : Completion :=
  let s' := onPointerUp s in
  match release with
  | Raises => Normal s'
  | _ => Normal s'
  end.

(** Every listener of the page, with the outcome of the capture or
    release call for the events that make one. *)
Definition listen (e : DomEvent) (capture : CaptureCall) (win : WindowMetrics)
    (s : PageState) : Completion :=
  match e with
  | pointerdown x => onPointerDown_listener x capture s
  | pointerup => onPointerUp_listener capture s
  | pointercancel => onPointerUp_listener capture s
  | _ => Normal (dispatch e win s)
  end.

Definition dispatch_all (es : list (DomEvent * WindowMetrics)) (s : PageState) : PageState :=
  fold_left (fun st ew => dispatch (fst ew) (snd ew) st) es s.

Definition isMove (e : DomEvent) : bool :=
  match e with
  | mousemove _ | touchmove _ | pointermove _ => true
  | _ => false
  end.

(** The horizontal position a move event reports, if any. *)
Definition moveX (e : DomEvent) : option Q :=
  match e with
  | mousemove x => Some x
  | pointermove x => Some x
  | touchmove ts => firstTouch ts
  | _ => None
  end.

(** The two shapes of the drag machine: idle, or dragging with the
    last position known. *)
Definition drag_wf (s : PageState) : Prop :=
  (draggingRef s = false /\ lastXRef s = None)
  \/ (draggingRef s = true /\ exists x, lastXRef s = Some x).

(** ** useModelBBox *)

Record Box3 : Type := mkBox3 { box_min : Vector3; box_max : Vector3 }.

(** The operations of three.js that the hook calls.  They live outside
    the repository; the hook is modelled over any implementation. *)
Class Three : Type := {
  Object3D : Type;
  clone : Object3D -> Object3D;
  setScalar : Q -> Object3D -> Object3D;
  updateMatrixWorld : Object3D -> Object3D;
  setFromObject : Object3D -> Box3;
  getSize : Box3 -> Vector3;
  getCenter : Box3 -> Vector3
}.

Section Hook.

Context {three : Three}.

(** A loaded asset: the identity of the object returned by [useGLTF]
    (what React compares in a dependency array) and its scene. *)
Record GLTF : Type := mkGLTF {
  gltf_id : nat;
  scene : option Object3D
}.

(** The box of the scene scaled by [MODEL_SCALE]. *)
Definition scaledBox (sc : Object3D) : Box3 :=
  let sceneClone := clone sc in
  let sceneClone := setScalar MODEL_SCALE sceneClone in
  let sceneClone := updateMatrixWorld sceneClone in
  setFromObject sceneClone.

(** The record handed to [setBbox]. *)
Definition measure (sc : Object3D) : BBox :=
  let box := scaledBox sc in
  let sz := getSize box in
  let c := getCenter box in
  mkBBox (box_min box) (box_max box) c sz (vy sz).

(** The hook's state: the [bbox] cell, the dependency seen by the
    last run of the effect, and how many boxes were computed. *)
Record HookState : Type := mkHook {
  bbox : option BBox;
  effectDeps : option nat;
  measured : nat
}.

Definition hook_init : HookState := mkHook None None O.

(** The effect body. *)
Definition bboxEffect (g : GLTF) (h : HookState) : HookState :=
  match scene g with
  | None => mkHook (bbox h) (Some (gltf_id g)) (measured h)
  | Some sc => mkHook (Some (measure sc)) (Some (gltf_id g)) (S (measured h))
  end.

(** A committed render with [useGLTF] returning [g]: React runs the
    effect when [gltf] differs from the one seen by its last run. *)
Definition hook_commit (g : GLTF) (h : HookState) : HookState :=
  match effectDeps h with
  | Some d => if Nat.eqb d (gltf_id g) then h else bboxEffect g h
  | None => bboxEffect g h
  end.

(** ** The page as one machine *)

Record App : Type := mkApp {
  page : PageState;
  hook : HookState;
  groupRef : option Group;
  modelRefs : ModelRefs;
  rig : RigRefs;
  camera : Camera;
  badge : BadgeState
}.

Definition app_init (now : Q) : App :=
  mkApp page_init hook_init None modelRefs_init (rig_init now) camera_init badge_init.

Inductive AppEvent : Type :=
  | Commit (g : GLTF)
  | Tick (drei : option Q) (now : Q) (win : WindowMetrics)
  | Dom (e : DomEvent) (win : WindowMetrics)
  | Badge (e : BadgeEvent).

(** One animation frame.  [ModelInstance] and [CameraRig] are both
    inside [SceneWithAutoTargets], so their frame callbacks exist only
    once it has committed; the commit is also what mounts the group,
    so before it there is nothing to run.  After it: [ModelInstance],
    then [CameraRig] with the waypoints memoised from [bbox]. *)
Definition app_tick (drei : option Q) (now : Q) (win : WindowMetrics) (s : App)
  : option App :=
  match groupRef s with
  | None => Some s
  | Some _ =>
      let '(refs, grp, applied) :=
        ModelInstance_frame drei (pointerX (page s)) (dragRotation (page s))
                            (modelRefs s) (groupRef s) in
      let pg := match applied with
                | Some r => onApplyRotation r (page s)
                | None => page s
                end in
      match CameraRig_frame (sectionTargets (bbox (hook s))) drei now win
                            (rig s) (camera s) with
      | None => None
      | Some (r, cam) => Some (mkApp pg (hook s) grp refs r cam (badge s))
      end
  end.

(** A commit mounts the group (if it is not yet) and runs the effect. *)
Definition app_commit (g : GLTF) (s : App) : App :=
  mkApp (page s) (hook_commit g (hook s))
        (match groupRef s with Some grp => Some grp | None => Some group_init end)
        (modelRefs s) (rig s) (camera s) (badge s).

(** A step of the page.  An exception that escapes a DOM listener is
    reported by the browser and the page goes on with the refs as the
    listener left them, so a DOM step is the listener's effect on the
    state ([dispatch]); an exception in a frame callback ends the run. *)
Definition app_step (e : AppEvent) (s : App) : option App :=
  match e with
  | Commit g => Some (app_commit g s)
  | Tick drei now win => app_tick drei now win s
  | Dom ev win =>
      Some (mkApp (dispatch ev win (page s)) (hook s) (groupRef s) (modelRefs s)
                  (rig s) (camera s) (badge s))
  | Badge ev =>
      Some (mkApp (page s) (hook s) (groupRef s) (modelRefs s)
                  (rig s) (camera s) (badge_step ev (badge s)))
  end.

(** Run a trace; [None] as soon as a step throws. *)
Fixpoint app_run (es : list AppEvent) (s : App) : option App :=
  match es with
  | [] => Some s
  | e :: rest =>
      match app_step e s with
      | None => None
      | Some s' => app_run rest s'
      end
  end.

Definition isCommit (e : AppEvent) : bool :=
  match e with
  | Commit _ => true
  | _ => false
  end.

(** Every commit of the trace carries the asset [g]. *)
Definition commitsOnly (g : GLTF) (e : AppEvent) : bool :=
  match e with
  | Commit g' => Nat.eqb (gltf_id g') (gltf_id g)
  | _ => true
  end.

(** The asset of the first commit of a trace. *)
Fixpoint firstCommit (es : list AppEvent) : option GLTF :=
  match es with
  | [] => None
  | Commit g :: _ => Some g
  | _ :: rest => firstCommit rest
  end.

(** The page loads one asset: every commit sees the same object. *)
Definition oneAsset (es : list AppEvent) : bool :=
  match firstCommit es with
  | None => true
  | Some g => forallb (commitsOnly g) es
  end.

End Hook.

(** The simplest scene: one known by the corners of its local box and
    a uniform scale.  Used to run the hook on concrete data. *)
Record BoxScene : Type := mkBoxScene {
  local_min : Vector3;
  local_max : Vector3;
  scale : Q
}.

Definition scaleV (k : Q) (v : Vector3) : Vector3 :=
  mkVector3 (k * vx v) (k * vy v) (k * vz v).

Definition BoxThree : Three := {|
  Object3D := BoxScene;
  clone := fun o => o;
  setScalar := fun k o => mkBoxScene (local_min o) (local_max o) k;
  updateMatrixWorld := fun o => o;
  setFromObject := fun o =>
    mkBox3 (scaleV (scale o) (local_min o)) (scaleV (scale o) (local_max o));
  getSize := fun b =>
    mkVector3 (vx (box_max b) - vx (box_min b))
              (vy (box_max b) - vy (box_min b))
              (vz (box_max b) - vz (box_min b));
  getCenter := fun b =>
    mkVector3 ((vx (box_min b) + vx (box_max b)) * (1 # 2))
              ((vy (box_min b) + vy (box_max b)) * (1 # 2))
              ((vz (box_min b) + vz (box_max b)) * (1 # 2))
|}.

(** ** Further parts of the page *)

(** The goal that sits exactly on a waypoint. *)
Definition waypoint_goal (w : Target) : CamGoal := mkCamGoal (camY w) (lookAt w).

(** Waypoint [k] of four. *)
Definition way4 (w0 w1 w2 w3 : Target) (k : Z) : Target :=
  if (k =? 0)%Z then w0 else if (k =? 1)%Z then w1
  else if (k =? 2)%Z then w2 else w3.

(** Successive frames of [ModelInstance]: each frame is given
    [scroll.offset] and the props [pointerX] and [dragRotation]. *)
Record ModelFrameInput : Type := mkModelFrame {
  m_offset : option Q;
  m_pointerX : Q;
  m_drag : Q
}.

Fixpoint model_run (fs : list ModelFrameInput) (refs : ModelRefs)
    (grp : option Group) : ModelRefs * option Group :=
  match fs with
  | [] => (refs, grp)
  | f :: rest =>
      let '(refs', grp', _) :=
        ModelInstance_frame (m_offset f) (m_pointerX f) (m_drag f) refs grp in
      model_run rest refs' grp'
  end.

(** [scroll.offset ?? 0] lies in [0,1]. *)
Definition offset_in_unit (f : ModelFrameInput) : bool :=
  Qle_bool 0 (Js.nullish (m_offset f) 0) && Qle_bool (Js.nullish (m_offset f) 0) 1.

(** RotateBadge: the numbers it prints.  [%] on integers is the
    remainder that takes the sign of the dividend. *)
Record RotateReadout : Type := mkReadout {
  degAppliedNorm : Z;
  turnsApplied : Q;
  turnsRaw : Q;
  radRaw : Q;
  radApplied : Q
}.

Definition RotateBadge (dragRot appliedRot : Q) : RotateReadout :=
  let degApplied := (appliedRot * 180) / Math_PI in
  let norm := Z.rem (Z.rem (Js.round degApplied) 360 + 360) 360 in
  let tRaw := inject_Z (Js.round ((dragRot / (Math_PI * 2)) * 100)) / 100 in
  let tApplied := inject_Z (Js.round ((appliedRot / (Math_PI * 2)) * 100)) / 100 in
  let rRaw := inject_Z (Js.round (dragRot * 100)) / 100 in
  let rApplied := inject_Z (Js.round (appliedRot * 100)) / 100 in
  mkReadout norm tApplied tRaw rRaw rApplied.

(** Scroll and resize events ask for an animation frame; this is the
    handle [requestAnimationFrame] would return for them. *)
Definition scheduleHandle (e : BadgeEvent) : option Z :=
  match e with
  | BadgeScroll h => Some h
  | BadgeResize h => Some h
  | BadgeAnimationFrame _ => None
  end.

Definition isSchedule (e : BadgeEvent) : bool :=
  match scheduleHandle e with
  | Some _ => true
  | None => false
  end.

(** Frames of the rig before the bounding box is known. *)
Definition noBBox (f : FrameInput) : bool :=
  match f_bbox f with
  | None => true
  | Some _ => false
  end.

(** The handlers of the earlier revision: they only set [pointerX]. *)
Module HoverPage.

Definition handleMouse (x : Q) (win : WindowMetrics) (pointerX : Q) : Q :=
  let w := Js.or_else (innerWidth win) 1 in
  Js.clamp ((x / w) * 2 - 1) (- (1)) 1.

Definition handleTouch (touches : option (list Q)) (win : WindowMetrics)
    (pointerX : Q) : Q :=
  match firstTouch touches with
  | None => pointerX
  | Some x =>
      let w := Js.or_else (innerWidth win) 1 in
      Js.clamp ((x / w) * 2 - 1) (- (1)) 1
  end.

End HoverPage.

(** ** Eased scalars held at a fixed target *)






(** ** The easing update in the page's own number type

    [v += (target - v) * a] on IEEE binary64, as the browser computes
    it. *)
Module Double.

Import Floats.PrimFloat.
Local Open Scope float_scope.

Definition ease (a v target : float) : float := v + (target - v) * a.

Fixpoint ease_iter (a target : float) (n : nat) (v : float) : float :=
  match n with
  | O => v
  | S k => ease a (ease_iter a target k v) target
  end.





End Double.

(** ** Facts about the primitives *)

Lemma clamp_bounds (x lo hi : Q) : lo <= hi -> lo <= Js.clamp x lo hi <= hi.
Proof.
  intros Hlh. unfold Js.clamp. split.
  - apply Q.min_glb; [apply Q.le_max_r | exact Hlh].
  - apply Q.le_min_r.
Qed.

Lemma clamp_id (x lo hi : Q) : lo <= x <= hi -> Js.clamp x lo hi == x.
Proof.
  intros [Hl Hh]. unfold Js.clamp.
  assert (Hm : Qmax x lo == x) by (apply Q.max_l; exact Hl).
  rewrite (Q.min_l (Qmax x lo) hi); [exact Hm |].
  rewrite Hm. exact Hh.
Qed.

Lemma floor_range (x : Q) (n : Z) :
  0 <= x <= inject_Z n -> (0 <= Qfloor x <= n)%Z.
Proof.
  intros [H0 Hn]. split.
  - change 0%Z with (Qfloor 0). apply Qfloor_resp_le. exact H0.
  - rewrite <- (Qfloor_Z n). apply Qfloor_resp_le. exact Hn.
Qed.

Lemma segments_four (w0 w1 w2 w3 : Target) : segments [w0; w1; w2; w3] = 3.
Proof. reflexivity. Qed.

Lemma four_index_cases (t : Q) :
  let i := Qfloor (Js.clamp (t * 3) 0 3) in
  i = 0%Z \/ i = 1%Z \/ i = 2%Z \/ i = 3%Z.
Proof.
  intros i.
  assert (Hs : 0 <= Js.clamp (t * 3) 0 3 <= inject_Z 3)
    by (apply clamp_bounds; discriminate).
  apply floor_range in Hs. subst i. lia.
Qed.

(** ** The waypoint interpolator *)

(** With four waypoints the index never leaves the array. *)
Lemma cameraGoal_four (w0 w1 w2 w3 : Target) (t : Q) :
  cameraGoal [w0; w1; w2; w3] t = Some (spec_blend4 w0 w1 w2 w3 t).
Proof.
  unfold cameraGoal, spec_blend4, scaled, Js.floor, lerp.
  rewrite segments_four.
  destruct (four_index_cases t) as [E | [E | [E | E]]]; rewrite E; reflexivity.
Qed.

(** C1: for every scroll fraction [t] in [0,1] and every list of four
    waypoints, the interpolator returns the four-point piecewise-linear
    blend: [s = clamp(t*3,0,3)], [i = floor s], local fraction [s - i],
    linear interpolation between waypoint [i] and waypoint [min(i+1,3)]
    for [camY] and for each look-at component. *)
Theorem cameraGoal_is_four_point_blend (w0 w1 w2 w3 : Target) (t : Q) :
  0 <= t <= 1 ->
  cameraGoal [w0; w1; w2; w3] t = Some (spec_blend4 w0 w1 w2 w3 t)
  /\ Js.clamp (t * 3) 0 3 == t * 3.
Proof.
  intros [H0 H1]. split.
  - apply cameraGoal_four.
  - apply clamp_id. lra.
Qed.

Lemma cameraGoal_is_four_point_blend_witness :
  cameraGoal (defaultTargets 4) (1 # 2)
  = Some (spec_blend4 (mkTarget (16 # 10) 4 (mkVector3 0 (9 # 10) 0))
                      (mkTarget (6 # 10) 4 (mkVector3 0 (2 # 10) 0))
                      (mkTarget (- (6 # 10)) 4 (mkVector3 0 (- (6 # 10)) 0))
                      (mkTarget (- 2) 4 (mkVector3 0 (- (18 # 10)) 0)) (1 # 2))
  /\ Js.clamp ((1 # 2) * 3) 0 3 == (1 # 2) * 3.
Proof.
  apply cameraGoal_is_four_point_blend. split; discriminate.
Defined.

(** Halfway down the page the default waypoints give a camera height
    of 0 and a look-at height of -0.2 (between torso and arms). *)
Example cameraGoal_default_half :
  cameraGoal (defaultTargets 4) (1 # 2)
  = Some (mkCamGoal ((6 # 10) + (- (6 # 10) - (6 # 10)) * ((1 # 2) * 3 - 1))
                    (mkVector3 (0 + (0 - 0) * ((1 # 2) * 3 - 1))
                               ((2 # 10) + (- (6 # 10) - (2 # 10)) * ((1 # 2) * 3 - 1))
                               (0 + (0 - 0) * ((1 # 2) * 3 - 1)))).
Proof. reflexivity. Qed.

Lemma scaled_at_zero (ws : list Target) : scaled ws 0 == 0.
Proof.
  unfold scaled.
  assert (Hseg : 1 <= segments ws) by (unfold segments; apply Q.le_max_l).
  rewrite clamp_id; lra.
Qed.

(** C3: at scroll fraction [t = 0] the interpolator's goal is the
    first (head) waypoint: the target height is its [camY] and the
    look-at point is its [lookAt] vector. *)
Theorem cameraGoal_at_zero_is_head (head : Target) (rest : list Target) :
  exists g, cameraGoal (head :: rest) 0 = Some g
            /\ targetY g == camY head
            /\ Vector3_eq (look g) (lookAt head).
Proof.
  pose proof (scaled_at_zero (head :: rest)) as Hsc.
  assert (Hi : Qfloor (scaled (head :: rest) 0) = 0%Z).
  { rewrite Hsc. reflexivity. }
  unfold cameraGoal, Js.floor. rewrite Hi.
  assert (Hb : exists b, Js.index (head :: rest)
                           (Z.min (0 + 1) (Js.length (head :: rest) - 1)) = Some b).
  { destruct rest as [| w1 rest'].
    - exists head. reflexivity.
    - exists w1. unfold Js.length. cbn [List.length].
      replace (Z.min (0 + 1) (Z.of_nat (S (S (List.length rest'))) - 1)) with 1%Z by lia.
      reflexivity. }
  destruct Hb as [b Hb]. rewrite Hb. cbn [Js.index Z.ltb Z.compare Z.to_nat nth_error].
  eexists. split; [reflexivity |].
  unfold Vector3_eq, lerp. cbn [targetY look vx vy vz].
  repeat split; rewrite Hsc; ring.
Qed.

(** ** ModelInstance: pointer and drag act on the Y rotation only *)

(** C4: two frame updates of [ModelInstance] that differ only in
    [pointerX] and [dragRotation] (same scroll offset, same eased
    state) have the same X-rotation target and the same height
    target, hence the same eased X rotation and height; the
    Y-rotation targets differ by
    [(pointerX' - pointerX) * 0.45 + (dragRotation' - dragRotation)]. *)
Theorem pointer_and_drag_rotate_only_Y
    (offset : option Q) (refs : ModelRefs) (grp : Group)
    (px dr px' dr' : Q) :
  let t := Js.nullish offset 0 in
  let g := modelGoal t px dr in
  let g' := modelGoal t px' dr' in
  let '(r, o, _) := ModelInstance_frame offset px dr refs (Some grp) in
  let '(r', o', _) := ModelInstance_frame offset px' dr' refs (Some grp) in
  targetBaseRotX g' = targetBaseRotX g
  /\ modelTargetY g' = modelTargetY g
  /\ targetCombinedY g' - targetCombinedY g == (px' - px) * (45 # 100) + (dr' - dr)
  /\ rotXRef r' = rotXRef r
  /\ posYRef r' = posYRef r
  /\ option_map rotation_x o' = option_map rotation_x o
  /\ option_map group_position_y o' = option_map group_position_y o.
Proof.
  cbn -[Qplus Qmult Qminus Qopp].
  repeat split.
  unfold HOVER_POINTER_ROT_MAX. ring.
Qed.

(** Without a drag term the later revision's targets are those of the
    earlier one. *)
Lemma modelGoal_without_drag (t px : Q) :
  targetCombinedY (modelGoal t px 0) == targetCombinedY (Hover.modelGoal t px)
  /\ targetBaseRotX (modelGoal t px 0) = targetBaseRotX (Hover.modelGoal t px)
  /\ modelTargetY (modelGoal t px 0) = modelTargetY (Hover.modelGoal t px).
Proof.
  repeat split. cbn [modelGoal Hover.modelGoal targetCombinedY].
  unfold HOVER_POINTER_ROT_MAX, Hover.POINTER_ROT_MAX. ring.
Qed.

(** ** Easing converges *)

Section Easing.

Variable a : Q.
Hypothesis a_pos : 0 < a.
Hypothesis a_le_1 : a <= 1.







End Easing.

Lemma easingRates_range (a : Q) : In a easingRates -> 0 < a /\ a <= 1.
Proof.
  unfold easingRates. cbn [In].
  intros [E | [E | [E | [E | []]]]]; subst a; split; reflexivity || discriminate.
Qed.

(** The frame callbacks update their four eased scalars with [ease]
    at the listed rates. *)
Lemma frames_use_ease (offset : option Q) (px dr : Q) (refs : ModelRefs) (grp : Group) :
  let goal := modelGoal (Js.nullish offset 0) px dr in
  let refs' := fst (fst (ModelInstance_frame offset px dr refs (Some grp))) in
  rotYRef refs' = ease RATE_ROT_Y (rotYRef refs) (targetCombinedY goal)
  /\ rotXRef refs' = ease RATE_ROT_X (rotXRef refs) (targetBaseRotX goal)
  /\ posYRef refs' = ease RATE_POS_Y (posYRef refs) (modelTargetY goal).
Proof. repeat split. Qed.

Lemma rig_uses_ease (targets : option (list Target)) (drei : option Q) (now : Q)
    (w : WindowMetrics) (r r' : RigRefs) (cam cam' : Camera) :
  CameraRig_frame targets drei now w r cam = Some (r', cam') ->
  exists goal : CamGoal,
    position_y cam' = ease RATE_CAM_Y (position_y cam) (targetY goal)
    /\ lookingAt cam' = Some (look goal).
Proof.
  unfold CameraRig_frame.
  destruct (cameraGoal _ _) as [goal |]; [| discriminate].
  intros H. injection H as _ <-. exists goal. split; reflexivity.
Qed.

(** ** CameraRig: choosing the scroll source *)

Lemma ltb_spec (x y : Q) : Js.ltb x y = true <-> x < y.
Proof.
  unfold Js.ltb. rewrite negb_true_iff.
  split.
  - intros H. apply Qnot_le_lt. intros Hle.
    apply Qle_bool_iff in Hle. congruence.
  - intros H. destruct (Qle_bool y x) eqn:E; [| reflexivity].
    apply Qle_bool_iff in E. lra.
Qed.

Lemma ltb_false (x y : Q) : Js.ltb x y = false <-> y <= x.
Proof.
  unfold Js.ltb. rewrite negb_false_iff. apply Qle_bool_iff.
Qed.

(** The first frame records the offset and the time and leaves the
    choice of source as it was. *)
Lemma first_frame_records (d now : Q) (r : RigRefs) :
  lastDrei r = None ->
  trackScrollSource d now r = mkRig (Some d) now (useWindowFallback r) (initialZ r).
Proof. intros H. unfold trackScrollSource. rewrite H. reflexivity. Qed.

(** Two frames from mount: the offset is 0.5 on both, 1000 ms apart.
    It has been unchanged for more than 300 ms, yet the rig keeps the
    drei measurement. *)
Lemma idle_away_from_top_keeps_drei :
  let w := mkWindow (Some 100) None (Some 2000) None (Some 1000) (Some 800) in
  let f1 := mkFrame None (Some (1 # 2)) 0 w in
  let f2 := mkFrame None (Some (1 # 2)) 1000 w in
  exists r1 cam1,
    rig_run [f1] (rig_init 0) camera_init = Some (r1, cam1)
    /\ spec_idle (1 # 2) 1000 r1 = true
    /\ option_map (fun rc => useWindowFallback (fst rc))
                  (rig_run [f1; f2] (rig_init 0) camera_init) = Some false.
Proof.
  cbv zeta. eexists. eexists.
  split; [vm_compute; reflexivity |].
  split; vm_compute; reflexivity.
Qed.

(** C2 (amended): with a recorded offset [last], a frame whose drei
    offset differs from [last] by more than 1e-5 clears the fallback
    and records the new offset and time; otherwise the recorded offset
    and time are kept and the fallback is on afterwards exactly when
    it was already on, or more than 300 ms have passed since the
    recorded change and the drei offset is below 1e-6 in absolute
    value. *)
Theorem fallback_rule (d now last : Q) (r : RigRefs) :
  lastDrei r = Some last ->
  let r' := trackScrollSource d now r in
  (CHANGE_EPS < Qabs (d - last) ->
     useWindowFallback r' = false
     /\ lastDrei r' = Some d /\ lastChangeTime r' = now)
  /\ (Qabs (d - last) <= CHANGE_EPS ->
       (useWindowFallback r' = true <->
          useWindowFallback r = true
          \/ (IDLE_MS < now - lastChangeTime r /\ Qabs d < ZERO_EPS))
       /\ lastDrei r' = lastDrei r /\ lastChangeTime r' = lastChangeTime r).
Proof.
  intros Hlast r'. subst r'. unfold trackScrollSource, Js.abs. rewrite Hlast.
  split.
  - intros Hchg. apply ltb_spec in Hchg. rewrite Hchg. cbn. auto.
  - intros Hsame. apply ltb_false in Hsame. rewrite Hsame.
    destruct (Js.ltb IDLE_MS (now - lastChangeTime r)) eqn:Hidle;
      destruct (Js.ltb (Qabs d) ZERO_EPS) eqn:Hzero; cbn [andb].
    + cbn. apply ltb_spec in Hidle. apply ltb_spec in Hzero.
      repeat split; auto.
    + apply ltb_false in Hzero. repeat split; auto.
      intros [H | [_ H]]; [exact H | lra].
    + apply ltb_false in Hidle. repeat split; auto.
      intros [H | [H _]]; [exact H | lra].
    + apply ltb_false in Hidle. repeat split; auto.
      intros [H | [H _]]; [exact H | lra].
Qed.

Lemma fallback_rule_witness :
  let r := mkRig (Some 0) 0 false (Some 4) in
  lastDrei r = Some 0
  /\ useWindowFallback (trackScrollSource 0 301 r) = true.
Proof.
  cbv zeta. split; [reflexivity |].
  pose proof (fallback_rule 0 301 0 (mkRig (Some 0) 0 false (Some 4)) eq_refl) as [_ H].
  destruct (H ltac:(discriminate)) as [[_ Hon] _].
  apply Hon. right. split; reflexivity.
Defined.

Lemma trackScrollSource_near_top (d now : Q) (r : RigRefs) :
  fallback_near_top r -> fallback_near_top (trackScrollSource d now r).
Proof.
  unfold fallback_near_top, trackScrollSource, Js.abs. intros Inv.
  destruct (lastDrei r) as [last |] eqn:Hlast.
  - destruct (Js.ltb CHANGE_EPS (Qabs (d - last))) eqn:Hchg.
    + cbn. discriminate.
    + apply ltb_false in Hchg.
      destruct (Js.ltb IDLE_MS (now - lastChangeTime r)
                && Js.ltb (Qabs d) ZERO_EPS) eqn:Hset.
      * cbn. intros _. exists last. split; [reflexivity |].
        apply andb_true_iff in Hset. destruct Hset as [_ Hz].
        apply ltb_spec in Hz.
        assert (E : last == d + - (d - last)) by ring.
        rewrite E.
        apply Qle_lt_trans with (Qabs d + Qabs (- (d - last)));
          [apply Qabs_triangle |].
        rewrite Qabs_opp. lra.
      * rewrite Hlast. exact Inv.
  - cbn. intros Hon. destruct (Inv Hon) as [last [Habs _]]. discriminate.
Qed.

(** The reference for "changed" is the recorded offset, not the
    previous frame: here the offset moves by 1.5e-5 between the last
    two frames but stays within 1e-5 of the recorded 0, and the
    fallback stays on. *)
Example drift_around_recorded_offset_keeps_fallback :
  let w := mkWindow (Some 100) None (Some 2000) None (Some 1000) (Some 800) in
  let fs := [ mkFrame None (Some 0) 0 w;
              mkFrame None (Some 0) 400 w;
              mkFrame None (Some (1 # 100000)) 416 w;
              mkFrame None (Some (- (5 # 1000000))) 432 w ] in
  option_map (fun rc => useWindowFallback (fst rc))
             (rig_run fs (rig_init 0) camera_init) = Some true.
Proof. vm_compute. reflexivity. Qed.

(** ** Page: the drag machine *)

(** A [touchstart] that carries no touch is ignored: the flag stays
    down. *)
Lemma touchstart_without_touches_is_ignored :
  let w := mkWindow (Some 0) None (Some 2000) None (Some 1000) (Some 800) in
  draggingRef (dispatch (touchstart (Some [])) w page_init) = false
  /\ draggingRef (dispatch (touchstart None) w page_init) = false.
Proof. split; reflexivity. Qed.

Lemma dispatch_drag_wf (e : DomEvent) (win : WindowMetrics) (s : PageState) :
  drag_wf s -> drag_wf (dispatch e win s).
Proof.
  unfold drag_wf. intros Hwf.
  destruct e as [x | ts | x | x | | | ts |]; cbn [dispatch].
  - unfold handleMouseMove.
    destruct Hwf as [[Hd Hl] | [Hd [y Hl]]]; rewrite Hd, Hl; cbn; eauto.
  - unfold handleTouchMoveHover.
    destruct (firstTouch ts) as [x |]; [| exact Hwf].
    destruct Hwf as [[Hd Hl] | [Hd [y Hl]]]; rewrite Hd, Hl; cbn; eauto.
  - right. cbn. eauto.
  - unfold onPointerMove.
    destruct Hwf as [[Hd Hl] | [Hd [y Hl]]]; rewrite Hd; cbn [negb].
    + left. auto.
    + right. cbn. eauto.
  - left. cbn. auto.
  - left. cbn. auto.
  - unfold onTouchStart. destruct (firstTouch ts) as [x |]; [| exact Hwf].
    right. cbn. eauto.
  - left. cbn. auto.
Qed.

Lemma dispatch_all_drag_wf (es : list (DomEvent * WindowMetrics)) (s : PageState) :
  drag_wf s -> drag_wf (dispatch_all es s).
Proof.
  revert s. unfold dispatch_all.
  induction es as [| [e w] rest IH]; intros s Hwf; cbn [fold_left fst snd].
  - exact Hwf.
  - apply IH. apply dispatch_drag_wf. exact Hwf.
Qed.

(** C6 (amended): the drag machine has two shapes, idle (flag down, no
    last X) and dragging (flag up, last X known), and every state
    reached from the initial one has one of them.  [pointerdown], and a
    [touchstart] that carries at least one touch, raise the flag and
    record the position; a [touchstart] without touches changes
    nothing.  [pointerup], [pointercancel] and [touchend] lower the
    flag and clear the last X.  Move events never change the flag.
    For every event, [dragRotation] is either left as it is, or the
    flag was up, the event is a move at some [x], and the new value is
    the old one plus [(x - lastX) / windowWidth * DRAG_SENSITIVITY]
    (with [lastX = x] when none was recorded). *)
Theorem drag_machine (e : DomEvent) (win : WindowMetrics) (s : PageState)
    (es : list (DomEvent * WindowMetrics)) :
  let s' := dispatch e win s in
  drag_wf (dispatch_all es page_init)
  /\ match e with
     | pointerdown x => draggingRef s' = true /\ lastXRef s' = Some x
     | touchstart ts =>
         match firstTouch ts with
         | Some x => draggingRef s' = true /\ lastXRef s' = Some x
         | None => s' = s
         end
     | pointerup | pointercancel | touchend =>
         draggingRef s' = false /\ lastXRef s' = None
     | mousemove _ | touchmove _ | pointermove _ =>
         draggingRef s' = draggingRef s
     end
  /\ (dragRotation s' = dragRotation s
      \/ (draggingRef s = true
          /\ isMove e = true
          /\ exists x, moveX e = Some x
               /\ dragRotation s'
                  = dragRotation s
                    + (x - Js.nullish (lastXRef s) x)
                      / Js.or_else (innerWidth win) 1 * DRAG_SENSITIVITY)).
Proof.
  intros s'. subst s'. split; [| split].
  - apply dispatch_all_drag_wf. left. split; reflexivity.
  - destruct e as [x | ts | x | x | | | ts |]; cbn [dispatch].
    + unfold handleMouseMove.
      destruct (draggingRef s) eqn:E, (lastXRef s); cbn; auto.
    + unfold handleTouchMoveHover.
      destruct (firstTouch ts); [| reflexivity].
      destruct (draggingRef s) eqn:E, (lastXRef s); cbn; auto.
    + split; reflexivity.
    + unfold onPointerMove. destruct (draggingRef s) eqn:E; cbn; auto.
    + split; reflexivity.
    + split; reflexivity.
    + unfold onTouchStart. destruct (firstTouch ts); [split |]; reflexivity.
    + split; reflexivity.
  - destruct e as [x | ts | x | x | | | ts |]; cbn [dispatch isMove moveX].
    + unfold handleMouseMove.
      destruct (draggingRef s); [| left; destruct (lastXRef s); reflexivity].
      destruct (lastXRef s) as [last |]; [| left; reflexivity].
      right. repeat split. exists x. split; reflexivity.
    + unfold handleTouchMoveHover.
      destruct (firstTouch ts) as [x |]; [| left; reflexivity].
      destruct (draggingRef s); [| left; destruct (lastXRef s); reflexivity].
      destruct (lastXRef s) as [last |]; [| left; reflexivity].
      right. repeat split. exists x. split; reflexivity.
    + left. reflexivity.
    + unfold onPointerMove.
      destruct (draggingRef s); cbn [negb]; [| left; reflexivity].
      right. repeat split. exists x. split; reflexivity.
    + left. reflexivity.
    + left. reflexivity.
    + left. unfold onTouchStart. destruct (firstTouch ts); reflexivity.
    + left. reflexivity.
Qed.

(** A drag of 200 px across an 800 px window turns the model by a
    quarter of [DRAG_SENSITIVITY]. *)
Example drag_200px :
  let w := mkWindow (Some 0) None (Some 2000) None (Some 1000) (Some 800) in
  dragRotation (dispatch_all [(pointerdown 100, w); (pointermove 300, w); (pointerup, w)]
                             page_init)
  == DRAG_SENSITIVITY * (1 # 4).
Proof. vm_compute. reflexivity. Qed.

(** ** Scroll normalisation and the scroll badge *)

(** [x || d]: the default is taken exactly when [x] is missing or zero. *)
Lemma or_else_spec (x : option Q) (d : Q) :
  match x with
  | None => Js.or_else x d = d
  | Some v => (v == 0 -> Js.or_else x d = d) /\ (~ v == 0 -> Js.or_else x d = v)
  end.
Proof.
  destruct x as [v |]; [| reflexivity].
  unfold Js.or_else. split; intros H.
  - apply Qeq_bool_iff in H. rewrite H. reflexivity.
  - destruct (Qeq_bool v 0) eqn:E; [| reflexivity].
    apply Qeq_bool_iff in E. contradiction.
Qed.

Lemma maxScroll_ge_1 (w : WindowMetrics) : 1 <= maxScroll w.
Proof. unfold maxScroll. apply Q.le_max_l. Qed.

Lemma windowNorm_range (w : WindowMetrics) : 0 <= windowNorm w <= 1.
Proof. unfold windowNorm. apply clamp_bounds. discriminate. Qed.

Lemma round_percent_range (x : Q) :
  0 <= x <= 1 -> (0 <= Js.round (x * 100) <= 100)%Z.
Proof.
  intros [H0 H1]. unfold Js.round.
  assert (Hlo : (Qfloor 0 <= Qfloor (x * 100 + (1 # 2)))%Z)
    by (apply Qfloor_resp_le; lra).
  assert (Hhi : (Qfloor (x * 100 + (1 # 2)) <= Qfloor (201 # 2))%Z)
    by (apply Qfloor_resp_le; lra).
  change (Qfloor 0) with 0%Z in Hlo.
  change (Qfloor (201 # 2)) with 100%Z in Hhi.
  lia.
Qed.

Lemma badge_run_range (es : list BadgeEvent) (b : BadgeState) :
  0 <= scrolled b <= 1 -> 0 <= scrolled (badge_run es b) <= 1.
Proof.
  revert b. unfold badge_run.
  induction es as [| e rest IH]; intros b Hb; cbn [fold_left].
  - exact Hb.
  - apply IH. destruct e as [h | h | w]; cbn [badge_step].
    + unfold badge_onScroll. destruct (rafId b); exact Hb.
    + unfold badge_onScroll. destruct (rafId b); exact Hb.
    + cbn. apply windowNorm_range.
Qed.

(** C8: scroll normalisation is total and bounded.  Whatever the
    window reports (each reading defaulted when zero or missing), the
    divisor [max(1, docH - winH)] is at least 1, the fraction is
    [clamp(scrollY / max(1, docH - winH), 0, 1)] and lies in [0,1];
    and after any sequence of scroll, resize and animation-frame
    events the badge prints an integer between 0 and 100. *)
Theorem scroll_norm_total_and_bounded (w : WindowMetrics) (es : list BadgeEvent) :
  1 <= maxScroll w
  /\ maxScroll w = Qmax 1 (readDocH w - readWinH w)
  /\ windowNorm w = spec_norm (readScrollY w) (readDocH w) (readWinH w)
  /\ 0 <= windowNorm w <= 1
  /\ (0 <= badge_percent (badge_run es badge_init) <= 100)%Z.
Proof.
  split; [apply maxScroll_ge_1 |].
  split; [reflexivity |].
  split; [reflexivity |].
  split; [apply windowNorm_range |].
  unfold badge_percent. apply round_percent_range.
  apply badge_run_range. cbn. split; discriminate.
Qed.

(** A page 4000 px tall in a 1000 px window, scrolled by 750 px, reads
    25 percent; a page no taller than the window reads 0 or 100. *)
Example badge_quarter :
  badge_percent
    (badge_run [BadgeScroll 1;
                BadgeAnimationFrame
                  (mkWindow (Some 750) None (Some 4000) None (Some 1000) (Some 800))]
               badge_init) = 25%Z.
Proof. reflexivity. Qed.

Example badge_short_page :
  badge_percent
    (badge_update (mkWindow (Some 5) None (Some 1000) None (Some 1000) (Some 800))
                  badge_init) = 100%Z.
Proof. reflexivity. Qed.

(** ** CameraRig: the camera keeps its depth *)

Lemma trackScrollSource_initialZ (d now : Q) (r : RigRefs) :
  initialZ (trackScrollSource d now r) = initialZ r.
Proof.
  unfold trackScrollSource.
  destruct (lastDrei r) as [last |]; [| reflexivity].
  destruct (Js.ltb CHANGE_EPS (Js.abs (d - last))); [reflexivity |].
  destruct (Js.ltb IDLE_MS (now - lastChangeTime r) && Js.ltb (Js.abs d) ZERO_EPS);
    reflexivity.
Qed.

Lemma captureInitialZ_initialZ (cam : Camera) (r : RigRefs) :
  initialZ (captureInitialZ cam r) = Some (Js.nullish (initialZ r) (position_z cam)).
Proof.
  unfold captureInitialZ. destruct (initialZ r) eqn:E; [exact E | reflexivity].
Qed.

Lemma sectionTargets_four (b : BBox) :
  exists w0 w1 w2 w3, sectionTargets (Some b) = Some [w0; w1; w2; w3].
Proof. unfold sectionTargets. do 4 eexists. reflexivity. Qed.

(** The targets the rig interpolates are always four waypoints. *)
Lemma rig_targets_four (bb : option BBox) (z : Q) :
  exists w0 w1 w2 w3,
    Js.nullish (sectionTargets bb) (defaultTargets z) = [w0; w1; w2; w3].
Proof.
  destruct bb as [b |].
  - destruct (sectionTargets_four b) as (w0 & w1 & w2 & w3 & E).
    rewrite E. do 4 eexists. reflexivity.
  - do 4 eexists. reflexivity.
Qed.

(** A frame of the rig never throws, and it leaves the camera at the
    depth captured on the first frame. *)
Lemma CameraRig_frame_total (bb : option BBox) (drei : option Q) (now : Q)
    (w : WindowMetrics) (r : RigRefs) (cam : Camera) :
  exists r' cam',
    CameraRig_frame (sectionTargets bb) drei now w r cam = Some (r', cam')
    /\ position_z cam' = Js.nullish (initialZ r) (position_z cam)
    /\ initialZ r' = Some (Js.nullish (initialZ r) (position_z cam)).
Proof.
  unfold CameraRig_frame.
  set (r2 := trackScrollSource (Js.number_or_zero drei) now (captureInitialZ cam r)).
  assert (Hz : initialZ r2 = Some (Js.nullish (initialZ r) (position_z cam))).
  { subst r2. rewrite trackScrollSource_initialZ. apply captureInitialZ_initialZ. }
  destruct (rig_targets_four bb (Js.nullish (initialZ r2) 4))
    as (w0 & w1 & w2 & w3 & E).
  rewrite E, cameraGoal_four.
  do 2 eexists. split; [reflexivity |].
  cbn [position_z]. rewrite Hz. split; reflexivity.
Qed.

Lemma withCamZ_index (f : Target -> Q) (ws : list Target) (i : Z) :
  Js.index (map (withCamZ f) ws) i = option_map (withCamZ f) (Js.index ws i).
Proof.
  unfold Js.index. destruct (i <? 0)%Z; [reflexivity |].
  apply nth_error_map.
Qed.

(** The interpolator does not read [camZ]. *)
Lemma cameraGoal_ignores_camZ (f : Target -> Q) (ws : list Target) (t : Q) :
  cameraGoal (map (withCamZ f) ws) t = cameraGoal ws t.
Proof.
  unfold cameraGoal, scaled, segments, Js.length.
  rewrite length_map, !withCamZ_index.
  destruct (Js.index ws _) as [a |]; [| reflexivity].
  destruct (Js.index ws _) as [b |]; reflexivity.
Qed.

Lemma rig_run_keeps_z (fs : list FrameInput) (r : RigRefs) (cam : Camera) (z : Q) :
  Js.nullish (initialZ r) (position_z cam) = z ->
  exists r' cam',
    rig_run fs r cam = Some (r', cam')
    /\ position_z cam' = (match fs with [] => position_z cam | _ => z end)
    /\ (fs <> [] -> initialZ r' = Some z).
Proof.
  revert r cam. induction fs as [| f rest IH]; intros r cam Hz.
  - exists r, cam. repeat split. intros H. contradiction.
  - cbn [rig_run].
    destruct (CameraRig_frame_total (f_bbox f) (f_drei f) (f_now f) (f_win f) r cam)
      as (r1 & cam1 & Hstep & Hcz & Hiz).
    rewrite Hstep. rewrite Hz in Hcz, Hiz.
    destruct (IH r1 cam1) as (r' & cam' & Hrun & Hz' & Hi').
    { rewrite Hiz. reflexivity. }
    exists r', cam'. split; [exact Hrun |]. split.
    + rewrite Hz'. destruct rest; [exact Hcz | reflexivity].
    + intros _. destruct rest as [| f' rest'].
      * cbn in Hrun. injection Hrun as <- <-. exact Hiz.
      * apply Hi'. discriminate.
Qed.

(** C10: the camera's Z never changes.  From mount, after any number
    of frames (whatever the scroll offset, clock, window and bounding
    box on each), the rig has not thrown and [camera.position.z] is
    the value the camera had on the first frame; each frame assigns
    the captured value again; and replacing the [camZ] of every
    waypoint by anything else changes nothing in the frame's result. *)
Theorem camera_z_is_frozen
    (fs : list FrameInput) (now0 : Q) (cam0 : Camera)
    (ws : list Target) (f : Target -> Q)
    (bb : option BBox) (drei : option Q) (now : Q) (w : WindowMetrics)
    (r : RigRefs) (cam : Camera) :
  (exists r' cam',
     rig_run fs (rig_init now0) cam0 = Some (r', cam')
     /\ position_z cam' = position_z cam0)
  /\ (exists r1 cam1,
        CameraRig_frame (sectionTargets bb) drei now w r cam = Some (r1, cam1)
        /\ position_z cam1 = Js.nullish (initialZ r) (position_z cam)
        /\ initialZ r1 = Some (position_z cam1))
  /\ CameraRig_frame (Some (map (withCamZ f) ws)) drei now w r cam
     = CameraRig_frame (Some ws) drei now w r cam.
Proof.
  split; [| split].
  - destruct (rig_run_keeps_z fs (rig_init now0) cam0 (position_z cam0) eq_refl)
      as (r' & cam' & Hrun & Hz & _).
    exists r', cam'. split; [exact Hrun |].
    rewrite Hz. destruct fs; reflexivity.
  - destruct (CameraRig_frame_total bb drei now w r cam)
      as (r1 & cam1 & Hstep & Hcz & Hiz).
    exists r1, cam1. rewrite Hcz. auto.
  - unfold CameraRig_frame. cbn [Js.nullish].
    rewrite cameraGoal_ignores_camZ. reflexivity.
Qed.

(** Scrolling from the top to the bottom with the box-derived
    waypoints (whose [camZ] range from 5.4 down to 3.3) leaves the
    camera at its initial depth 4. *)
Example scroll_does_not_zoom :
  let w := mkWindow (Some 0) None (Some 4000) None (Some 1000) (Some 800) in
  let b := mkBBox (mkVector3 (- 1) 0 (- 1)) (mkVector3 1 2 1)
                  (mkVector3 0 1 0) (mkVector3 2 2 2) 2 in
  option_map (fun rc => position_z (snd rc))
    (rig_run [mkFrame (Some b) (Some 0) 0 w;
              mkFrame (Some b) (Some (1 # 2)) 16 w;
              mkFrame (Some b) (Some 1) 32 w]
             (rig_init 0) camera_init)
  = Some 4.
Proof. vm_compute. reflexivity. Qed.

(** ** The page as a whole *)

Section PageFacts.

Context {three : Three}.

Lemma app_step_total (e : AppEvent) (s : App) :
  exists s', app_step e s = Some s'.
Proof.
  destruct e as [g | drei now win | ev win | ev]; cbn [app_step];
    try (eexists; reflexivity).
  unfold app_tick.
  destruct (groupRef s) as [grp0 |]; [| eexists; reflexivity].
  destruct (ModelInstance_frame drei (pointerX (page s)) (dragRotation (page s))
              (modelRefs s) (Some grp0)) as [[refs grp] applied].
  destruct (CameraRig_frame_total (bbox (hook s)) drei now win (rig s) (camera s))
    as (r' & cam' & Hstep & _).
  rewrite Hstep. eexists. reflexivity.
Qed.

Lemma app_run_total (es : list AppEvent) (s : App) :
  exists s', app_run es s = Some s'.
Proof.
  revert s. induction es as [| e rest IH]; intros s; cbn [app_run].
  - eexists. reflexivity.
  - destruct (app_step_total e s) as [s1 H1]. rewrite H1. apply IH.
Qed.

(** Only a commit touches the hook's state. *)
Lemma app_step_hook (e : AppEvent) (s s' : App) :
  app_step e s = Some s' ->
  hook s' = match e with
            | Commit g => hook_commit g (hook s)
            | _ => hook s
            end.
Proof.
  destruct e as [g | drei now win | ev win | ev]; cbn [app_step].
  - intros H. injection H as <-. reflexivity.
  - unfold app_tick.
    destruct (groupRef s) as [grp0 |];
      [| intros H; injection H as <-; reflexivity].
    destruct (ModelInstance_frame _ _ _ _ _) as [[refs grp] applied].
    destruct (CameraRig_frame _ _ _ _ _ _) as [[r cam] |]; [| discriminate].
    intros H. injection H as <-. reflexivity.
  - intros H. injection H as <-. reflexivity.
  - intros H. injection H as <-. reflexivity.
Qed.

Lemma bboxEffect_deps (g : GLTF) (h : HookState) :
  effectDeps (bboxEffect g h) = Some (gltf_id g).
Proof. unfold bboxEffect. destruct (scene g); reflexivity. Qed.

(** Once the effect has run for [g], commits of the same object skip it. *)
Lemma app_run_after_effect (g : GLTF) (es : list AppEvent) (s : App) :
  hook s = bboxEffect g hook_init ->
  forallb (commitsOnly g) es = true ->
  exists s', app_run es s = Some s' /\ hook s' = bboxEffect g hook_init.
Proof.
  revert s. induction es as [| e rest IH]; intros s Hh Hall; cbn [app_run].
  - exists s. split; [reflexivity | exact Hh].
  - cbn [forallb] in Hall. apply andb_true_iff in Hall. destruct Hall as [He Hrest].
    destruct (app_step_total e s) as [s1 H1]. rewrite H1.
    apply IH; [| exact Hrest].
    rewrite (app_step_hook e s s1 H1).
    destruct e as [g' | | |]; try exact Hh.
    cbn [commitsOnly] in He. apply Nat.eqb_eq in He.
    unfold hook_commit. rewrite Hh, bboxEffect_deps, <- He, Nat.eqb_refl.
    reflexivity.
Qed.

Lemma app_run_from_fresh_hook (es : list AppEvent) (s : App) :
  hook s = hook_init ->
  oneAsset es = true ->
  exists s', app_run es s = Some s'
             /\ hook s' = match firstCommit es with
                          | Some g => bboxEffect g hook_init
                          | None => hook_init
                          end.
Proof.
  revert s. induction es as [| e rest IH]; intros s Hh Hone.
  - exists s. split; [reflexivity | exact Hh].
  - cbn [app_run].
    destruct (app_step_total e s) as [s1 H1]. rewrite H1.
    pose proof (app_step_hook e s s1 H1) as Hs1.
    destruct e as [g | drei now win | ev win | ev].
    + cbn [firstCommit]. unfold oneAsset in Hone. cbn [firstCommit forallb] in Hone.
      apply andb_true_iff in Hone. destruct Hone as [_ Hrest].
      apply app_run_after_effect; [| exact Hrest].
      rewrite Hs1, Hh. reflexivity.
    + cbn [firstCommit]. apply IH; [congruence |].
      unfold oneAsset in *. cbn [firstCommit] in Hone.
      destruct (firstCommit rest); [| reflexivity].
      cbn [forallb commitsOnly andb] in Hone. exact Hone.
    + cbn [firstCommit]. apply IH; [congruence |].
      unfold oneAsset in *. cbn [firstCommit] in Hone.
      destruct (firstCommit rest); [| reflexivity].
      cbn [forallb commitsOnly andb] in Hone. exact Hone.
    + cbn [firstCommit]. apply IH; [congruence |].
      unfold oneAsset in *. cbn [firstCommit] in Hone.
      destruct (firstCommit rest); [| reflexivity].
      cbn [forallb commitsOnly andb] in Hone. exact Hone.
Qed.

(** C7: the bounding box is computed once per loaded model and cached.
    On any trace of the page in which every commit sees the same
    loaded asset, the run does not throw, the hook ends with the box
    measured from that asset's scene scaled by [MODEL_SCALE] (its
    [min], [max], [center] and [size] are those of that box and
    [height] is [size.y]), and exactly one measurement was made (none
    before the first commit or without a scene); and no frame, DOM or
    badge event changes the hook's state. *)
Theorem bbox_measured_once (now : Q) (es : list AppEvent) :
  oneAsset es = true ->
  (exists s,
     app_run es (app_init now) = Some s
     /\ bbox (hook s) = match firstCommit es with
                        | Some g => option_map measure (scene g)
                        | None => None
                        end
     /\ measured (hook s) = match firstCommit es with
                            | Some g => match scene g with
                                        | Some _ => 1%nat
                                        | None => 0%nat
                                        end
                            | None => 0%nat
                            end)
  /\ (forall e s s',
        isCommit e = false -> app_step e s = Some s' -> hook s' = hook s)
  /\ (forall sc : Object3D,
        let box := setFromObject (updateMatrixWorld (setScalar (12 # 10) (clone sc))) in
        let m := measure sc in
        bmin m = box_min box /\ bmax m = box_max box
        /\ center m = getCenter box /\ size m = getSize box
        /\ height m = vy (size m)).
Proof.
  intros Hone. split; [| split].
  - destruct (app_run_from_fresh_hook es (app_init now) eq_refl Hone)
      as (s & Hrun & Hh).
    exists s. split; [exact Hrun |]. rewrite Hh.
    destruct (firstCommit es) as [g |]; [| split; reflexivity].
    unfold bboxEffect. destruct (scene g); split; reflexivity.
  - intros e s s' Hnc Hstep. rewrite (app_step_hook e s s' Hstep).
    destruct e; [discriminate | reflexivity | reflexivity | reflexivity].
  - intros sc. cbv zeta. repeat split.
Qed.

End PageFacts.

Lemma bbox_measured_once_witness :
  let sc := mkBoxScene (mkVector3 (- 1) 0 (- 1)) (mkVector3 1 2 1) 1 in
  let g := @mkGLTF BoxThree 7%nat (Some sc) in
  let w := mkWindow (Some 0) None (Some 4000) None (Some 1000) (Some 800) in
  let es := [ @Tick BoxThree (Some 0) 0 w;
              @Commit BoxThree g;
              @Tick BoxThree (Some (1 # 10)) 16 w;
              @Dom BoxThree (pointerdown 100) w;
              @Commit BoxThree g;
              @Tick BoxThree (Some (2 # 10)) 32 w ] in
  @oneAsset BoxThree es = true
  /\ exists s,
       @app_run BoxThree es (app_init 0) = Some s
       /\ bbox (hook s) = Some (@measure BoxThree sc)
       /\ measured (hook s) = 1%nat.
Proof.
  intros sc g w es.
  assert (Hone : @oneAsset BoxThree es = true) by reflexivity.
  split; [exact Hone |].
  exact (proj1 (@bbox_measured_once BoxThree 0 es Hone)).
Defined.

(** The box of a scene spanning [-1,1] x [0,2] x [-1,1], scaled by
    1.2: height 2.4. *)
Example measure_box_scene :
  height (@measure BoxThree
            (mkBoxScene (mkVector3 (- 1) 0 (- 1)) (mkVector3 1 2 1) 1))
  == 24 # 10.
Proof. vm_compute. reflexivity. Qed.

(** ** The interpolator on lists of any length *)

Lemma floor_unique (x : Q) (k : Z) :
  inject_Z k <= x -> x < inject_Z (k + 1) -> Qfloor x = k.
Proof.
  intros Hlo Hhi.
  pose proof (Qfloor_le x) as H1. pose proof (Qlt_floor x) as H2.
  assert (A : inject_Z (Qfloor x) < inject_Z (k + 1)) by lra.
  assert (B : inject_Z k < inject_Z (Qfloor x + 1)) by lra.
  rewrite <- Zlt_Qlt in A, B. lia.
Qed.

Lemma fraction_range (x : Q) : 0 <= x - inject_Z (Qfloor x) /\ x - inject_Z (Qfloor x) < 1.
Proof.
  pose proof (Qfloor_le x) as H1. pose proof (Qlt_floor x) as H2.
  rewrite inject_Z_plus in H2. change (inject_Z 1) with 1 in H2.
  split; lra.
Qed.

Lemma index_in_range {A : Type} (arr : list A) (i : Z) :
  (0 <= i < Js.length arr)%Z -> exists a, Js.index arr i = Some a.
Proof.
  unfold Js.index, Js.length. intros [H0 H1].
  destruct (i <? 0)%Z eqn:E; [apply Z.ltb_lt in E; lia |].
  destruct (nth_error arr (Z.to_nat i)) as [a |] eqn:En; [exists a; reflexivity |].
  apply nth_error_None in En. lia.
Qed.

Lemma index_some_in {A : Type} (arr : list A) (i : Z) (a : A) :
  Js.index arr i = Some a -> In a arr.
Proof.
  unfold Js.index. destruct (i <? 0)%Z; [discriminate |].
  apply nth_error_In.
Qed.

Lemma segments_long (ws : list Target) :
  (2 <= Js.length ws)%Z -> segments ws == inject_Z (Js.length ws - 1).
Proof.
  intros H. unfold segments. apply Q.max_r.
  change 1 with (inject_Z 1). rewrite <- Zle_Qle. lia.
Qed.

Lemma scaled_range (ws : list Target) (t : Q) : 0 <= scaled ws t <= segments ws.
Proof.
  unfold scaled. apply clamp_bounds.
  apply Qle_trans with 1; [discriminate | unfold segments; apply Q.le_max_l].
Qed.

(** X1: with two waypoints or more the index stays inside the array. *)
Theorem cameraGoal_total_from_two (ws : list Target) (t : Q) :
  (2 <= List.length ws)%nat ->
  exists g, cameraGoal ws t = Some g.
Proof.
  intros Hlen.
  assert (HL : (2 <= Js.length ws)%Z) by (unfold Js.length; lia).
  pose proof (scaled_range ws t) as [Hs0 Hs1].
  rewrite (segments_long ws HL) in Hs1.
  assert (Hi : (0 <= Qfloor (scaled ws t) <= Js.length ws - 1)%Z)
    by (apply floor_range; split; assumption).
  unfold cameraGoal, Js.floor.
  destruct (index_in_range ws (Qfloor (scaled ws t))) as [a Ha]; [lia |].
  destruct (index_in_range ws (Z.min (Qfloor (scaled ws t) + 1) (Js.length ws - 1)))
    as [b Hb]; [lia |].
  rewrite Ha, Hb. eexists. reflexivity.
Qed.

Lemma cameraGoal_total_from_two_witness :
  (2 <= List.length (defaultTargets 4))%nat
  /\ exists g, cameraGoal (defaultTargets 4) (7 # 10) = Some g.
Proof.
  assert (H : (2 <= List.length (defaultTargets 4))%nat) by (cbn; lia).
  split; [exact H | exact (cameraGoal_total_from_two (defaultTargets 4) (7 # 10) H)].
Defined.

(** X2: an empty waypoint array makes the frame throw at every scroll
    position; a single waypoint works until the scroll fraction
    reaches 1 and throws from there on. *)
Theorem cameraGoal_short_arrays (w : Target) (t : Q) :
  cameraGoal [] t = None
  /\ (t < 1 -> exists g, cameraGoal [w] t = Some g
                         /\ CamGoal_eq g (waypoint_goal w))
  /\ (1 <= t -> cameraGoal [w] t = None).
Proof.
  split; [| split].
  - unfold cameraGoal, Js.index.
    destruct (Js.floor (scaled [] t) <? 0)%Z; [reflexivity |].
    destruct (Z.to_nat (Js.floor (scaled [] t))); reflexivity.
  - intros Ht.
    assert (Hseg : segments [w] = 1) by reflexivity.
    assert (Hi : Qfloor (scaled [w] t) = 0%Z).
    { pose proof (scaled_range [w] t) as [H0 _].
      apply floor_unique; [exact H0 |].
      unfold scaled. rewrite Hseg. unfold Js.clamp.
      change (inject_Z (0 + 1)) with 1.
      destruct (Qlt_le_dec t 0) as [Hneg | Hpos].
      - apply Qle_lt_trans with (Qmax (t * 1) 0); [apply Q.le_min_l |].
        rewrite Q.max_r by lra. reflexivity.
      - apply Qle_lt_trans with (Qmax (t * 1) 0); [apply Q.le_min_l |].
        rewrite Q.max_l by lra. lra. }
    unfold cameraGoal, Js.floor. rewrite Hi.
    eexists. split; [reflexivity |].
    unfold CamGoal_eq, Vector3_eq, waypoint_goal, lerp.
    cbn [targetY look vx vy vz]. repeat split; ring.
  - intros Ht.
    assert (Hseg : segments [w] = 1) by reflexivity.
    assert (Hi : Qfloor (scaled [w] t) = 1%Z).
    { assert (E : scaled [w] t == 1).
      { unfold scaled. rewrite Hseg. unfold Js.clamp.
        apply Q.min_r. apply Qle_trans with (t * 1); [lra | apply Q.le_max_l]. }
      rewrite E. reflexivity. }
    unfold cameraGoal, Js.floor. rewrite Hi. reflexivity.
Qed.

Lemma cameraGoal_short_arrays_witness :
  (1 : Q) <= 1 /\ cameraGoal [mkTarget 0 4 (mkVector3 0 0 0)] 1 = None.
Proof.
  assert (H : (1 : Q) <= 1) by discriminate.
  split; [exact H |].
  exact (proj2 (proj2 (cameraGoal_short_arrays (mkTarget 0 4 (mkVector3 0 0 0)) 1)) H).
Defined.

(** ** The four-point blend: knots, clamping, range, direction *)

Lemma clamp_low (x lo hi : Q) : lo <= hi -> x <= lo -> Js.clamp x lo hi == lo.
Proof.
  intros Hlh Hx. unfold Js.clamp.
  assert (Hm : Qmax x lo == lo) by (apply Q.max_r; exact Hx).
  rewrite (Q.min_l (Qmax x lo) hi); [exact Hm | rewrite Hm; exact Hlh].
Qed.

Lemma clamp_high (x lo hi : Q) : lo <= hi -> hi <= x -> Js.clamp x lo hi == hi.
Proof.
  intros Hlh Hx. unfold Js.clamp.
  apply Q.min_r. apply Qle_trans with x; [exact Hx | apply Q.le_max_l].
Qed.

Lemma clamp_mono (x y lo hi : Q) : x <= y -> Js.clamp x lo hi <= Js.clamp y lo hi.
Proof.
  intros H. unfold Js.clamp.
  apply Q.min_le_compat_r. apply Q.max_le_compat_r. exact H.
Qed.

Lemma blend_at_knot (w0 w1 w2 w3 : Target) (t : Q) (k : Z) :
  (0 <= k <= 3)%Z ->
  Js.clamp (t * 3) 0 3 == inject_Z k ->
  CamGoal_eq (spec_blend4 w0 w1 w2 w3 t) (waypoint_goal (way4 w0 w1 w2 w3 k)).
Proof.
  intros Hk Hs.
  assert (Hf : Qfloor (Js.clamp (t * 3) 0 3) = k) by (rewrite Hs; apply Qfloor_Z).
  unfold spec_blend4. rewrite Hf. clear Hf.
  assert (Hk' : k = 0%Z \/ k = 1%Z \/ k = 2%Z \/ k = 3%Z) by lia.
  unfold CamGoal_eq, Vector3_eq, waypoint_goal, way4.
  destruct Hk' as [E | [E | [E | E]]]; subst k;
    cbn [targetY look vx vy vz Z.eqb Z.min Z.add Z.compare Pos.compare
         Pos.compare_cont Pos.add Pos.succ];
    repeat split; rewrite Hs; ring.
Qed.

(** X3: outside the page the blend holds the end waypoints: a scroll
    fraction of 0 or less gives the first waypoint, 1 or more the last. *)
Theorem cameraGoal_clamps_to_ends (w0 w1 w2 w3 : Target) (t : Q) :
  (t <= 0 -> exists g, cameraGoal [w0; w1; w2; w3] t = Some g
                       /\ CamGoal_eq g (waypoint_goal w0))
  /\ (1 <= t -> exists g, cameraGoal [w0; w1; w2; w3] t = Some g
                          /\ CamGoal_eq g (waypoint_goal w3)).
Proof.
  split; intros Ht; rewrite cameraGoal_four; eexists; (split; [reflexivity |]).
  - apply (blend_at_knot w0 w1 w2 w3 t 0); [lia |].
    change (inject_Z 0) with 0. apply clamp_low; [discriminate | lra].
  - apply (blend_at_knot w0 w1 w2 w3 t 3); [lia |].
    change (inject_Z 3) with 3. apply clamp_high; [discriminate | lra].
Qed.

Lemma cameraGoal_clamps_to_ends_witness :
  (3 # 2) >= 1
  /\ exists g, cameraGoal (defaultTargets 4) (3 # 2) = Some g
               /\ CamGoal_eq g (waypoint_goal (mkTarget (- 2) 4 (mkVector3 0 (- (18 # 10)) 0))).
Proof.
  assert (H : 1 <= 3 # 2) by discriminate.
  split; [exact H |].
  exact (proj2 (cameraGoal_clamps_to_ends _ _ _ _ (3 # 2)) H).
Defined.

(** X4: the blend passes through every waypoint: at scroll fraction
    [k/3] the goal is waypoint [k], for k = 0, 1, 2, 3. *)
Theorem cameraGoal_through_waypoints (w0 w1 w2 w3 : Target) (t : Q) (k : Z) :
  (0 <= k <= 3)%Z ->
  t == inject_Z k / 3 ->
  exists g, cameraGoal [w0; w1; w2; w3] t = Some g
            /\ CamGoal_eq g (waypoint_goal (way4 w0 w1 w2 w3 k)).
Proof.
  intros Hk Ht. rewrite cameraGoal_four. eexists. split; [reflexivity |].
  apply blend_at_knot; [exact Hk |].
  assert (E : t * 3 == inject_Z k) by (rewrite Ht; field).
  assert (Hr : 0 <= inject_Z k <= 3).
  { split.
    - change 0 with (inject_Z 0). rewrite <- Zle_Qle. lia.
    - change 3 with (inject_Z 3). rewrite <- Zle_Qle. lia. }
  rewrite clamp_id; [exact E | rewrite E; exact Hr].
Qed.

Lemma cameraGoal_through_waypoints_witness :
  (0 <= 2 <= 3)%Z /\ (2 # 3) == inject_Z 2 / 3
  /\ exists g, cameraGoal (defaultTargets 4) (2 # 3) = Some g
               /\ CamGoal_eq g (waypoint_goal
                                  (mkTarget (- (6 # 10)) 4 (mkVector3 0 (- (6 # 10)) 0))).
Proof.
  assert (Hk : (0 <= 2 <= 3)%Z) by lia.
  assert (Ht : (2 # 3) == inject_Z 2 / 3) by reflexivity.
  split; [exact Hk |]. split; [exact Ht |].
  exact (cameraGoal_through_waypoints _ _ _ _ (2 # 3) 2 Hk Ht).
Defined.

Lemma mul_between (d f : Q) : 0 <= d -> 0 <= f <= 1 -> 0 <= d * f <= d.
Proof.
  intros Hd [Hf0 Hf1]. split.
  - apply Qmult_le_0_compat; assumption.
  - assert (H : 0 <= d * (1 - f)) by (apply Qmult_le_0_compat; lra).
    assert (E : d * (1 - f) == d - d * f) by ring.
    rewrite E in H. lra.
Qed.

Lemma lerp_between (a b f : Q) :
  0 <= f <= 1 -> Qmin a b <= lerp a b f <= Qmax a b.
Proof.
  intros Hf. unfold lerp.
  destruct (Qlt_le_dec a b) as [Hab | Hba].
  - rewrite Q.min_l, Q.max_r by lra.
    destruct (mul_between (b - a) f) as [H0 H1]; [lra | exact Hf |]. lra.
  - rewrite Q.min_r, Q.max_l by lra.
    destruct (mul_between (a - b) f) as [H0 H1]; [lra | exact Hf |].
    assert (E : (b - a) * f == - ((a - b) * f)) by ring.
    rewrite E. lra.
Qed.

(** X5: the goal never leaves the span of the two waypoints it blends:
    whenever the interpolator returns, its target height (and its
    look-at height) lies between the values of two waypoints of the
    list. *)
Theorem cameraGoal_within_waypoints (ws : list Target) (t : Q) (g : CamGoal) :
  cameraGoal ws t = Some g ->
  exists a b,
    In a ws /\ In b ws
    /\ Qmin (camY a) (camY b) <= targetY g <= Qmax (camY a) (camY b)
    /\ Qmin (vy (lookAt a)) (vy (lookAt b)) <= vy (look g)
       <= Qmax (vy (lookAt a)) (vy (lookAt b)).
Proof.
  unfold cameraGoal, Js.floor.
  destruct (Js.index ws (Qfloor (scaled ws t))) as [a |] eqn:Ha; [| discriminate].
  destruct (Js.index ws (Z.min (Qfloor (scaled ws t) + 1) (Js.length ws - 1)))
    as [b |] eqn:Hb; [| discriminate].
  intros H. injection H as <-.
  exists a, b.
  split; [eapply index_some_in; exact Ha |].
  split; [eapply index_some_in; exact Hb |].
  pose proof (fraction_range (scaled ws t)) as [F0 F1].
  cbn [targetY look vy].
  split; apply lerp_between; split; lra.
Qed.

Lemma cameraGoal_within_waypoints_witness :
  exists g, cameraGoal (defaultTargets 4) (1 # 2) = Some g
    /\ exists a b,
      In a (defaultTargets 4) /\ In b (defaultTargets 4)
      /\ Qmin (camY a) (camY b) <= targetY g <= Qmax (camY a) (camY b)
      /\ Qmin (vy (lookAt a)) (vy (lookAt b)) <= vy (look g)
         <= Qmax (vy (lookAt a)) (vy (lookAt b)).
Proof.
  eexists. split; [reflexivity |].
  apply (cameraGoal_within_waypoints (defaultTargets 4) (1 # 2)). reflexivity.
Defined.

(** X7: with waypoints ordered from top to bottom, scrolling down
    never raises the camera's target: the target height is
    non-increasing in the scroll fraction. *)
Theorem cameraGoal_descends (w0 w1 w2 w3 : Target) (t t' : Q) :
  camY w1 <= camY w0 -> camY w2 <= camY w1 -> camY w3 <= camY w2 ->
  t <= t' ->
  exists g g',
    cameraGoal [w0; w1; w2; w3] t = Some g
    /\ cameraGoal [w0; w1; w2; w3] t' = Some g'
    /\ targetY g' <= targetY g.
Proof.
  intros H10 H21 H32 Htt.
  rewrite !cameraGoal_four. do 2 eexists. split; [reflexivity |]. split; [reflexivity |].
  unfold spec_blend4. cbv zeta. cbn [targetY].
  assert (Hss : Js.clamp (t * 3) 0 3 <= Js.clamp (t' * 3) 0 3)
    by (apply clamp_mono; lra).
  pose proof (Qfloor_resp_le _ _ Hss) as Hii.
  pose proof (fraction_range (Js.clamp (t * 3) 0 3)) as [F0 F1].
  pose proof (fraction_range (Js.clamp (t' * 3) 0 3)) as [G0 G1].
  pose proof (four_index_cases t) as Hi. pose proof (four_index_cases t') as Hi'.
  cbv zeta in Hi, Hi'.
  set (s := Js.clamp (t * 3) 0 3) in *.
  set (s' := Js.clamp (t' * 3) 0 3) in *.
  destruct Hi as [E | [E | [E | E]]]; destruct Hi' as [E' | [E' | [E' | E']]];
    rewrite E, E' in *; try lia; clear Hii E E';
    unfold inject_Z in *;
    cbn [Z.eqb Z.min Z.add Z.compare Pos.compare Pos.compare_cont Pos.add Pos.succ Pos.eqb];
    set (f := s - _) in *; set (f' := s' - _) in *;
    pose proof (mul_between (camY w0 - camY w1) f ltac:(lra) ltac:(lra)) as [A0 A1];
    pose proof (mul_between (camY w1 - camY w2) f ltac:(lra) ltac:(lra)) as [B0 B1];
    pose proof (mul_between (camY w2 - camY w3) f ltac:(lra) ltac:(lra)) as [C0 C1];
    pose proof (mul_between (camY w0 - camY w1) f' ltac:(lra) ltac:(lra)) as [A0' A1'];
    pose proof (mul_between (camY w1 - camY w2) f' ltac:(lra) ltac:(lra)) as [B0' B1'];
    pose proof (mul_between (camY w2 - camY w3) f' ltac:(lra) ltac:(lra)) as [C0' C1'];
    try lra.
  all: assert (Hf : 0 <= f' - f) by (subst f f'; lra).
  - assert (Hd : 0 <= camY w0 - camY w1) by lra.
    pose proof (Qmult_le_0_compat _ _ Hd Hf). lra.
  - assert (Hd : 0 <= camY w1 - camY w2) by lra.
    pose proof (Qmult_le_0_compat _ _ Hd Hf). lra.
  - assert (Hd : 0 <= camY w2 - camY w3) by lra.
    pose proof (Qmult_le_0_compat _ _ Hd Hf). lra.
Qed.

Lemma cameraGoal_descends_witness :
  exists g g',
    cameraGoal (defaultTargets 4) (1 # 4) = Some g
    /\ cameraGoal (defaultTargets 4) (3 # 4) = Some g'
    /\ targetY g' <= targetY g.
Proof.
  apply (cameraGoal_descends
           (mkTarget (16 # 10) 4 (mkVector3 0 (9 # 10) 0))
           (mkTarget (6 # 10) 4 (mkVector3 0 (2 # 10) 0))
           (mkTarget (- (6 # 10)) 4 (mkVector3 0 (- (6 # 10)) 0))
           (mkTarget (- 2) 4 (mkVector3 0 (- (18 # 10)) 0))
           (1 # 4) (3 # 4)); cbn; discriminate.
Defined.

(** ** Waypoints from the bounding box *)

Lemma or_else_nonzero (v d : Q) : ~ v == 0 -> Js.or_else (Some v) d = v.
Proof. intros H. exact (proj2 (or_else_spec (Some v) d) H). Qed.

(** X6: for a box with positive height whose centre is the midpoint
    of its vertical extent, the four waypoints are ordered head,
    torso, arms, legs from top to bottom, both in camera height and
    in look-at height, and every look-at point is on the vertical
    axis. *)
Theorem sectionTargets_ordered (b : BBox) :
  0 < height b ->
  height b == vy (bmax b) - vy (bmin b) ->
  vy (center b) == (vy (bmin b) + vy (bmax b)) * (1 # 2) ->
  exists w0 w1 w2 w3,
    sectionTargets (Some b) = Some [w0; w1; w2; w3]
    /\ camY w3 < camY w2 /\ camY w2 < camY w1 /\ camY w1 < camY w0
    /\ vy (lookAt w3) < vy (lookAt w2) /\ vy (lookAt w2) < vy (lookAt w1)
    /\ vy (lookAt w1) < vy (lookAt w0)
    /\ Forall (fun w => vx (lookAt w) = 0 /\ vz (lookAt w) = 0) [w0; w1; w2; w3].
Proof.
  intros Hpos Hh Hc.
  unfold sectionTargets.
  rewrite or_else_nonzero by lra.
  do 4 eexists. split; [reflexivity |].
  cbn [camY lookAt vy vx vz]. unfold MODEL_Y_OFFSET.
  repeat split; try lra.
  repeat constructor.
Qed.

Lemma sectionTargets_ordered_witness :
  let b := mkBBox (mkVector3 (- 1) 0 (- 1)) (mkVector3 1 2 1)
                  (mkVector3 0 1 0) (mkVector3 2 2 2) 2 in
  exists w0 w1 w2 w3,
    sectionTargets (Some b) = Some [w0; w1; w2; w3]
    /\ camY w3 < camY w2 /\ camY w2 < camY w1 /\ camY w1 < camY w0
    /\ vy (lookAt w3) < vy (lookAt w2) /\ vy (lookAt w2) < vy (lookAt w1)
    /\ vy (lookAt w1) < vy (lookAt w0)
    /\ Forall (fun w => vx (lookAt w) = 0 /\ vz (lookAt w) = 0) [w0; w1; w2; w3].
Proof.
  intros b. apply (sectionTargets_ordered b); reflexivity.
Defined.

(** ** Easing: no overshoot *)

Lemma ease_iter_side (a v tg : Q) (n : nat) :
  0 <= a <= 1 ->
  (v <= tg -> v <= ease_iter a tg n v <= tg)
  /\ (tg <= v -> tg <= ease_iter a tg n v <= v).
Proof.
  intros Ha. induction n as [| k [IHup IHdown]]; cbn [ease_iter].
  - split; intros H; lra.
  - split; intros H.
    + specialize (IHup H). unfold ease.
      destruct (mul_between (tg - ease_iter a tg k v) a) as [M0 M1]; [lra | exact Ha |].
      lra.
    + specialize (IHdown H). unfold ease.
      destruct (mul_between (ease_iter a tg k v - tg) a) as [M0 M1]; [lra | exact Ha |].
      assert (E : (tg - ease_iter a tg k v) * a == - ((ease_iter a tg k v - tg) * a)) by ring.
      rewrite E. lra.
Qed.

(** X8: easing never overshoots.  At each of the page's rates the
    eased value moves monotonically toward a fixed target and stays
    on the side it started from: from below it rises and never
    exceeds the target, from above it falls and never goes under. *)
Theorem ease_no_overshoot (a v tg : Q) (n : nat) :
  In a easingRates ->
  (v <= tg ->
     ease_iter a tg n v <= ease_iter a tg (S n) v /\ ease_iter a tg (S n) v <= tg)
  /\ (tg <= v ->
       tg <= ease_iter a tg (S n) v /\ ease_iter a tg (S n) v <= ease_iter a tg n v).
Proof.
  intros Hin. destruct (easingRates_range a Hin) as [Hpos Hle].
  assert (Ha : 0 <= a <= 1) by lra.
  destruct (ease_iter_side a v tg n Ha) as [Un Dn].
  destruct (ease_iter_side a v tg (S n) Ha) as [Us Ds].
  split; intros H.
  - specialize (Un H). specialize (Us H). split; [| lra].
    cbn [ease_iter]. unfold ease.
    destruct (mul_between (tg - ease_iter a tg n v) a) as [M0 M1]; [lra | exact Ha |].
    lra.
  - specialize (Dn H). specialize (Ds H). split; [lra |].
    cbn [ease_iter]. unfold ease.
    destruct (mul_between (ease_iter a tg n v - tg) a) as [M0 M1]; [lra | exact Ha |].
    assert (E : (tg - ease_iter a tg n v) * a == - ((ease_iter a tg n v - tg) * a)) by ring.
    rewrite E. lra.
Qed.

Lemma ease_no_overshoot_witness :
  In (8 # 100) easingRates
  /\ ease_iter (8 # 100) 1 3 0 <= ease_iter (8 # 100) 1 4 0
  /\ ease_iter (8 # 100) 1 4 0 <= 1.
Proof.
  assert (Hin : In (8 # 100) easingRates) by (right; right; left; reflexivity).
  split; [exact Hin |].
  apply (proj1 (ease_no_overshoot (8 # 100) 0 1 3 Hin)). discriminate.
Defined.

(** ** ModelInstance over many frames *)

Lemma modelTargetY_range (t px dr : Q) :
  0 <= t <= 1 ->
  - (8 # 10) <= modelTargetY (modelGoal t px dr) <= - (2 # 10)
  /\ - (3 # 100) <= targetBaseRotX (modelGoal t px dr) <= 3 # 100.
Proof.
  intros Ht. cbn [modelGoal modelTargetY targetBaseRotX].
  unfold MODEL_Y_OFFSET, VERTICAL_BOB. lra.
Qed.

Lemma offset_in_unit_spec (f : ModelFrameInput) :
  offset_in_unit f = true -> 0 <= Js.nullish (m_offset f) 0 <= 1.
Proof.
  unfold offset_in_unit. intros H. apply andb_true_iff in H.
  destruct H as [H0 H1]. apply Qle_bool_iff in H0, H1. split; assumption.
Qed.

Lemma model_run_bounds (fs : list ModelFrameInput) (refs : ModelRefs) (grp : option Group) :
  forallb offset_in_unit fs = true ->
  - (8 # 10) <= posYRef refs <= - (2 # 10) ->
  - (3 # 100) <= rotXRef refs <= 3 # 100 ->
  - (8 # 10) <= posYRef (fst (model_run fs refs grp)) <= - (2 # 10)
  /\ - (3 # 100) <= rotXRef (fst (model_run fs refs grp)) <= 3 # 100.
Proof.
  revert refs grp. induction fs as [| f rest IH]; intros refs grp Hall Hp Hr.
  - cbn. split; assumption.
  - cbn [forallb] in Hall. apply andb_true_iff in Hall. destruct Hall as [Hf Hrest].
    apply offset_in_unit_spec in Hf.
    cbn [model_run]. unfold ModelInstance_frame.
    destruct grp as [g |].
    + destruct (modelTargetY_range (Js.nullish (m_offset f) 0) (m_pointerX f) (m_drag f) Hf)
        as [Ty Tx].
      apply IH; [exact Hrest | |]; cbn [posYRef rotXRef];
        unfold ease, RATE_POS_Y, RATE_ROT_X; lra.
    + apply IH; assumption.
Qed.

(** X9: as long as the scroll offset stays in [0,1], the model's eased
    height stays within 0.3 of [MODEL_Y_OFFSET] (between -0.8 and
    -0.2) and its eased X rotation within 0.03 rad of zero, after any
    number of frames and whatever the pointer and drag did. *)
Theorem model_stays_in_bob_range (fs : list ModelFrameInput) (grp : option Group) :
  forallb offset_in_unit fs = true ->
  let refs := fst (model_run fs modelRefs_init grp) in
  - (8 # 10) <= posYRef refs <= - (2 # 10)
  /\ - (3 # 100) <= rotXRef refs <= 3 # 100.
Proof.
  intros Hall. apply model_run_bounds; [exact Hall | |]; cbn; split; discriminate.
Qed.

Lemma model_stays_in_bob_range_witness :
  let fs := [ mkModelFrame (Some 0) (1 # 2) 0;
              mkModelFrame (Some 1) (- 1) 40;
              mkModelFrame None 1 (- 7) ] in
  forallb offset_in_unit fs = true
  /\ - (8 # 10) <= posYRef (fst (model_run fs modelRefs_init (Some group_init))) <= - (2 # 10)
  /\ - (3 # 100) <= rotXRef (fst (model_run fs modelRefs_init (Some group_init))) <= 3 # 100.
Proof.
  intros fs.
  assert (H : forallb offset_in_unit fs = true) by reflexivity.
  split; [exact H |].
  exact (model_stays_in_bob_range fs (Some group_init) H).
Defined.

(** ** Page: pointer position and drag over many events *)

Lemma dispatch_pointerX_range (e : DomEvent) (win : WindowMetrics) (s : PageState) :
  - (1) <= pointerX s <= 1 -> - (1) <= pointerX (dispatch e win s) <= 1.
Proof.
  intros Hs.
  assert (Hc : forall x, - (1) <= Js.clamp x (- (1)) 1 <= 1)
    by (intros x; apply clamp_bounds; discriminate).
  destruct e as [x | ts | x | x | | | ts |]; cbn [dispatch].
  - unfold handleMouseMove.
    destruct (draggingRef s), (lastXRef s); cbn [pointerX]; apply Hc.
  - unfold handleTouchMoveHover.
    destruct (firstTouch ts); [| exact Hs].
    destruct (draggingRef s), (lastXRef s); cbn [pointerX]; apply Hc.
  - exact Hs.
  - unfold onPointerMove. destruct (negb (draggingRef s)); exact Hs.
  - exact Hs.
  - exact Hs.
  - unfold onTouchStart. destruct (firstTouch ts); exact Hs.
  - exact Hs.
Qed.

(** X10: the hover position is always normalised: after any sequence
    of events, with any window width (zero or missing included),
    [pointerX] lies in [-1,1], so the hover term of the Y rotation is
    at most 0.45 rad in absolute value. *)
Theorem pointerX_always_normalised (es : list (DomEvent * WindowMetrics)) :
  let s := dispatch_all es page_init in
  - (1) <= pointerX s <= 1
  /\ Qabs (pointerX s * HOVER_POINTER_ROT_MAX) <= 45 # 100.
Proof.
  cbv zeta.
  assert (H : - (1) <= pointerX (dispatch_all es page_init) <= 1).
  { assert (G : forall s, - (1) <= pointerX s <= 1 ->
                          - (1) <= pointerX (dispatch_all es s) <= 1).
    { unfold dispatch_all.
      induction es as [| [e w] rest IH]; intros s Hs; cbn [fold_left fst snd].
      - exact Hs.
      - apply IH. apply dispatch_pointerX_range. exact Hs. }
    apply G. cbn. split; discriminate. }
  split; [exact H |].
  apply Qabs_Qle_condition. unfold HOVER_POINTER_ROT_MAX. lra.
Qed.

Lemma pointermoves_telescope (win : WindowMetrics) (xs : list Q) (s : PageState) (l : Q) :
  draggingRef s = true -> lastXRef s = Some l ->
  let s' := dispatch_all (map (fun x => (pointermove x, win)) xs) s in
  dragRotation s'
  == dragRotation s
     + (last xs l - l) / Js.or_else (innerWidth win) 1 * DRAG_SENSITIVITY
  /\ draggingRef s' = true /\ lastXRef s' = Some (last xs l).
Proof.
  cbv zeta. unfold dispatch_all.
  revert s l. induction xs as [| x rest IH]; intros s l Hd Hl.
  - cbn. split; [unfold Qdiv; ring | split; assumption].
  - cbn [map fold_left fst snd dispatch].
    destruct (IH (onPointerMove x win s) x) as (E & D & L).
    + unfold onPointerMove. rewrite Hd. reflexivity.
    + unfold onPointerMove. rewrite Hd. reflexivity.
    + assert (Hlast : last (x :: rest) l = last rest x).
      { clear. revert x l. induction rest as [| y r IHr]; intros x l; [reflexivity |].
        change (last (x :: y :: r) l) with (last (y :: r) l).
        rewrite !IHr. reflexivity. }
      rewrite Hlast. split; [| split; assumption].
      rewrite E. unfold onPointerMove. rewrite Hd, Hl.
      cbn [negb dragRotation Js.nullish]. unfold Qdiv. ring.
Qed.

(** X11: a drag is path-independent.  After [pointerdown] at [x0],
    any series of [pointermove] events in a window of constant width
    turns the model by [(x_last - x0) / width * DRAG_SENSITIVITY],
    whatever the positions in between. *)
Theorem drag_depends_on_endpoints (win : WindowMetrics) (x0 : Q) (xs : list Q)
    (s : PageState) :
  dragRotation
    (dispatch_all ((pointerdown x0, win) :: map (fun x => (pointermove x, win)) xs) s)
  == dragRotation s
     + (last xs x0 - x0) / Js.or_else (innerWidth win) 1 * DRAG_SENSITIVITY.
Proof.
  unfold dispatch_all. cbn [fold_left fst snd dispatch].
  destruct (pointermoves_telescope win xs (onPointerDown x0 s) x0 eq_refl eq_refl)
    as [E _].
  unfold dispatch_all in E. rewrite E. reflexivity.
Qed.

(** X12: a mouse movement during a drag reaches the page twice, as
    [pointermove] and as [mousemove]; in either order the pair turns
    the model once, by [(x - last) / width * DRAG_SENSITIVITY]. *)
Theorem paired_move_events_count_once (win : WindowMetrics) (x l : Q) (s : PageState) :
  draggingRef s = true -> lastXRef s = Some l ->
  let step := (x - l) / Js.or_else (innerWidth win) 1 * DRAG_SENSITIVITY in
  dragRotation (dispatch (mousemove x) win (dispatch (pointermove x) win s))
  == dragRotation s + step
  /\ dragRotation (dispatch (pointermove x) win (dispatch (mousemove x) win s))
     == dragRotation s + step.
Proof.
  intros Hd Hl. cbv zeta. cbn [dispatch].
  unfold handleMouseMove, onPointerMove. rewrite Hd, Hl.
  cbn [negb draggingRef lastXRef dragRotation Js.nullish].
  split; unfold Qdiv; ring.
Qed.

Lemma paired_move_events_count_once_witness :
  let win := mkWindow (Some 0) None (Some 2000) None (Some 1000) (Some 800) in
  let s := onPointerDown 100 page_init in
  draggingRef s = true /\ lastXRef s = Some 100
  /\ dragRotation (dispatch (mousemove 300) win (dispatch (pointermove 300) win s))
     == dragRotation s
        + (300 - 100) / Js.or_else (innerWidth win) 1 * DRAG_SENSITIVITY.
Proof.
  intros win s.
  assert (Hd : draggingRef s = true) by reflexivity.
  assert (Hl : lastXRef s = Some 100) by reflexivity.
  split; [exact Hd |]. split; [exact Hl |].
  exact (proj1 (paired_move_events_count_once win 300 100 s Hd Hl)).
Defined.

(** ** RotateBadge *)

Lemma round_error (y : Q) :
  - (1 # 2) < inject_Z (Js.round y) - y /\ inject_Z (Js.round y) - y <= 1 # 2.
Proof.
  unfold Js.round.
  pose proof (Qfloor_le (y + (1 # 2))) as H1.
  pose proof (Qlt_floor (y + (1 # 2))) as H2.
  rewrite inject_Z_plus in H2. change (inject_Z 1) with 1 in H2.
  split; lra.
Qed.

Lemma round_hundredths (x : Q) :
  Qabs (inject_Z (Js.round (x * 100)) / 100 - x) <= 1 # 200.
Proof.
  destruct (round_error (x * 100)) as [H1 H2].
  apply Qabs_Qle_condition.
  assert (E : inject_Z (Js.round (x * 100)) / 100 - x
              == (inject_Z (Js.round (x * 100)) - x * 100) * (1 # 100)) by field.
  rewrite E. split; lra.
Qed.

(** X13: the rotate badge.  The headline angle is an integer from 0
    to 359, equal to the applied rotation in degrees, rounded, modulo
    360 (also for negative rotations); each of the four small
    read-outs is within 0.005 of the quantity it shows. *)
Theorem RotateBadge_readout (dragRot appliedRot : Q) :
  let b := RotateBadge dragRot appliedRot in
  (0 <= degAppliedNorm b < 360)%Z
  /\ degAppliedNorm b = (Js.round (appliedRot * 180 / Math_PI) mod 360)%Z
  /\ Qabs (radRaw b - dragRot) <= 1 # 200
  /\ Qabs (radApplied b - appliedRot) <= 1 # 200
  /\ Qabs (turnsRaw b - dragRot / (Math_PI * 2)) <= 1 # 200
  /\ Qabs (turnsApplied b - appliedRot / (Math_PI * 2)) <= 1 # 200.
Proof.
  cbv zeta. unfold RotateBadge.
  cbn [degAppliedNorm radRaw radApplied turnsRaw turnsApplied].
  set (r := Js.round (appliedRot * 180 / Math_PI)).
  split; [| split; [| repeat split; apply round_hundredths]].
  - pose proof (Z.rem_bound_abs r 360 ltac:(lia)) as Hb.
    assert (H0 : (0 <= Z.rem r 360 + 360)%Z) by lia.
    pose proof (Z.rem_bound_pos (Z.rem r 360 + 360) 360 H0 ltac:(lia)). lia.
  - pose proof (Z.rem_bound_abs r 360 ltac:(lia)) as Hb.
    rewrite Z.rem_mod_nonneg by lia.
    pose proof (Z.quot_rem' r 360) as Hq.
    replace (Z.rem r 360 + 360)%Z with (r + (1 - Z.quot r 360) * 360)%Z by lia.
    apply Z.mod_add. lia.
Qed.

(** A quarter turn backwards reads 270 degrees. *)
Example RotateBadge_negative_quarter :
  degAppliedNorm (RotateBadge 0 (- (Math_PI * (1 # 2)))) = 270%Z.
Proof. vm_compute. reflexivity. Qed.

(** ** ScrollBadge: one callback per burst *)

Lemma badge_run_pending (es : list BadgeEvent) (b : BadgeState) (h : Z) :
  forallb isSchedule es = true ->
  rafId b = Some h ->
  badge_run es b = b.
Proof.
  unfold badge_run. revert b.
  induction es as [| e rest IH]; intros b Hall Hb; [reflexivity |].
  cbn [forallb] in Hall. apply andb_true_iff in Hall. destruct Hall as [He Hrest].
  cbn [fold_left].
  assert (Hstep : badge_step e b = b).
  { destruct e as [k | k | w]; [| | discriminate];
      cbn [badge_step]; unfold badge_onScroll; rewrite Hb; reflexivity. }
  rewrite Hstep. apply IH; assumption.
Qed.

(** X14: scroll and resize events are coalesced.  From a state with no
    callback pending, a burst of scroll and resize events schedules
    one callback, the first one's, and leaves the displayed value
    alone; the animation frame that follows shows the current
    fraction and clears the pending handle. *)
Theorem badge_coalesces_bursts (e : BadgeEvent) (rest : list BadgeEvent)
    (h : Z) (w : WindowMetrics) (b : BadgeState) :
  rafId b = None ->
  scheduleHandle e = Some h ->
  forallb isSchedule rest = true ->
  badge_run (e :: rest) b = mkBadge (scrolled b) (Some h)
  /\ badge_run (e :: rest ++ [BadgeAnimationFrame w]) b = mkBadge (windowNorm w) None.
Proof.
  intros Hb He Hrest.
  assert (Hfirst : badge_step e b = mkBadge (scrolled b) (Some h)).
  { destruct e as [k | k | w']; cbn [scheduleHandle] in He; try discriminate;
      injection He as ->; cbn [badge_step]; unfold badge_onScroll;
      rewrite Hb; reflexivity. }
  assert (Hburst : badge_run (e :: rest) b = mkBadge (scrolled b) (Some h)).
  { unfold badge_run. cbn [fold_left]. rewrite Hfirst.
    apply (badge_run_pending rest _ h); [exact Hrest | reflexivity]. }
  split; [exact Hburst |].
  change (e :: rest ++ [BadgeAnimationFrame w])
    with ((e :: rest) ++ [BadgeAnimationFrame w]).
  unfold badge_run in *. rewrite fold_left_app, Hburst. reflexivity.
Qed.

Lemma badge_coalesces_bursts_witness :
  let w := mkWindow (Some 750) None (Some 4000) None (Some 1000) (Some 800) in
  badge_run [BadgeScroll 7; BadgeResize 8; BadgeScroll 9] badge_init
  = mkBadge (scrolled badge_init) (Some 7%Z)
  /\ badge_run (BadgeScroll 7 :: [BadgeResize 8; BadgeScroll 9] ++ [BadgeAnimationFrame w])
               badge_init
     = mkBadge (windowNorm w) None.
Proof.
  intros w.
  exact (badge_coalesces_bursts (BadgeScroll 7) [BadgeResize 8; BadgeScroll 9] 7 w
           badge_init eq_refl eq_refl eq_refl).
Defined.

(** ** Scroll normalisation: the three regimes *)

(** X15: the window fraction is 0 at or above the top, 1 at or beyond
    the last scrollable pixel, and strictly between 0 and 1, equal to
    [scrollY / maxScroll], anywhere in between. *)
Theorem windowNorm_regimes (w : WindowMetrics) :
  (readScrollY w <= 0 -> windowNorm w == 0)
  /\ (maxScroll w <= readScrollY w -> windowNorm w == 1)
  /\ (0 < readScrollY w -> readScrollY w < maxScroll w ->
      windowNorm w == readScrollY w / maxScroll w
      /\ 0 < windowNorm w /\ windowNorm w < 1).
Proof.
  pose proof (maxScroll_ge_1 w) as Hm.
  assert (Hm0 : 0 < maxScroll w) by lra.
  unfold windowNorm.
  split; [| split].
  - intros H. apply clamp_low; [discriminate |].
    apply Qle_shift_div_r; [exact Hm0 | lra].
  - intros H. apply clamp_high; [discriminate |].
    apply Qle_shift_div_l; [exact Hm0 | lra].
  - intros H0 H1.
    assert (Hlo : 0 < readScrollY w / maxScroll w)
      by (apply Qlt_shift_div_l; [exact Hm0 | lra]).
    assert (Hhi : readScrollY w / maxScroll w < 1)
      by (apply Qlt_shift_div_r; [exact Hm0 | lra]).
    assert (E : Js.clamp (readScrollY w / maxScroll w) 0 1
                == readScrollY w / maxScroll w) by (apply clamp_id; lra).
    split; [exact E |]. rewrite E. split; assumption.
Qed.

Lemma windowNorm_regimes_witness :
  let w := mkWindow (Some 3000) None (Some 4000) None (Some 1000) (Some 800) in
  maxScroll w <= readScrollY w /\ windowNorm w == 1.
Proof.
  intros w.
  assert (H : maxScroll w <= readScrollY w) by (vm_compute; discriminate).
  split; [exact H | exact (proj1 (proj2 (windowNorm_regimes w)) H)].
Defined.

(** ** CameraRig over many frames *)

Lemma captureInitialZ_keeps_source (cam : Camera) (r : RigRefs) :
  lastDrei (captureInitialZ cam r) = lastDrei r
  /\ useWindowFallback (captureInitialZ cam r) = useWindowFallback r.
Proof. unfold captureInitialZ. destruct (initialZ r); split; reflexivity. Qed.

Lemma CameraRig_frame_refs (targets : option (list Target)) (drei : option Q) (now : Q)
    (w : WindowMetrics) (r r' : RigRefs) (cam cam' : Camera) :
  CameraRig_frame targets drei now w r cam = Some (r', cam') ->
  r' = trackScrollSource (Js.number_or_zero drei) now (captureInitialZ cam r).
Proof.
  unfold CameraRig_frame.
  destruct (cameraGoal _ _); [| discriminate].
  intros H. injection H as <- _. reflexivity.
Qed.

Lemma CameraRig_frame_near_top (targets : option (list Target)) (drei : option Q)
    (now : Q) (w : WindowMetrics) (r r' : RigRefs) (cam cam' : Camera) :
  fallback_near_top r ->
  CameraRig_frame targets drei now w r cam = Some (r', cam') ->
  fallback_near_top r'.
Proof.
  intros Inv H. rewrite (CameraRig_frame_refs _ _ _ _ _ _ _ _ H).
  apply trackScrollSource_near_top.
  destruct (captureInitialZ_keeps_source cam r) as [El Ef].
  unfold fallback_near_top. rewrite El, Ef. exact Inv.
Qed.

(** X16: the window fallback is only ever in force while drei reports
    the top of the page.  After any frames from mount the rig has not
    thrown, and if it is using the window measurement then the
    recorded drei offset is within 1.1e-5 of zero. *)
Theorem fallback_only_at_top (fs : list FrameInput) (now0 : Q) (cam0 : Camera) :
  exists r cam,
    rig_run fs (rig_init now0) cam0 = Some (r, cam)
    /\ (useWindowFallback r = true ->
        exists last, lastDrei r = Some last /\ Qabs last < 11 # 1000000).
Proof.
  assert (G : forall r0 c0, fallback_near_top r0 ->
              exists r cam, rig_run fs r0 c0 = Some (r, cam) /\ fallback_near_top r).
  { induction fs as [| f rest IH]; intros r0 c0 Inv; cbn [rig_run].
    - exists r0, c0. split; [reflexivity | exact Inv].
    - destruct (CameraRig_frame_total (f_bbox f) (f_drei f) (f_now f) (f_win f) r0 c0)
        as (r1 & c1 & Hstep & _).
      rewrite Hstep. apply IH.
      eapply CameraRig_frame_near_top; [exact Inv | exact Hstep]. }
  destruct (G (rig_init now0) cam0) as (r & cam & Hrun & Inv).
  { unfold fallback_near_top. cbn. discriminate. }
  exists r, cam. split; [exact Hrun |].
  intros Hon. destruct (Inv Hon) as [last [Hl Hb]].
  exists last. split; [exact Hl |].
  unfold CHANGE_EPS, ZERO_EPS in Hb. lra.
Qed.

Lemma ease_in_interval (v tg lo hi : Q) :
  lo <= v <= hi -> lo <= tg <= hi -> lo <= ease RATE_CAM_Y v tg <= hi.
Proof. intros Hv Ht. unfold ease, RATE_CAM_Y. lra. Qed.

Lemma defaultTargets_camY (z : Q) (a : Target) :
  In a (defaultTargets z) -> - (2) <= camY a <= 16 # 10.
Proof.
  cbn [defaultTargets In].
  intros [E | [E | [E | [E | []]]]]; subst a; cbn [camY]; split; discriminate.
Qed.

(** X17: until the bounding box is known the camera stays between the
    default head and legs viewpoints: after any frames without a
    box, whatever the scroll source reports, the rig has not thrown
    and the camera height is between -2 and 1.6. *)
Theorem camera_height_in_default_range (fs : list FrameInput) (now0 : Q) :
  forallb noBBox fs = true ->
  exists r cam,
    rig_run fs (rig_init now0) camera_init = Some (r, cam)
    /\ - (2) <= position_y cam <= 16 # 10.
Proof.
  assert (G : forall r0 c0, forallb noBBox fs = true ->
              - (2) <= position_y c0 <= 16 # 10 ->
              exists r cam, rig_run fs r0 c0 = Some (r, cam)
                            /\ - (2) <= position_y cam <= 16 # 10).
  { induction fs as [| f rest IH]; intros r0 c0 Hall Hy; cbn [rig_run].
    - exists r0, c0. split; [reflexivity | exact Hy].
    - cbn [forallb] in Hall. apply andb_true_iff in Hall. destruct Hall as [Hf Hrest].
      unfold noBBox in Hf. destruct (f_bbox f) eqn:Ebb; [discriminate |].
      destruct (CameraRig_frame_total None (f_drei f) (f_now f) (f_win f) r0 c0)
        as (r1 & c1 & Hstep & _).
      rewrite Hstep. apply IH; [exact Hrest |].
      revert Hstep. unfold CameraRig_frame. cbn [sectionTargets Js.nullish].
      destruct (cameraGoal _ _) as [goal |] eqn:Eg; [| discriminate].
      intros H. injection H as _ <-. cbn [position_y].
      destruct (cameraGoal_within_waypoints _ _ _ Eg)
        as (a & b & Ia & Ib & [Hlo Hhi] & _).
      apply defaultTargets_camY in Ia, Ib.
      apply ease_in_interval; [exact Hy |].
      split.
      + apply Qle_trans with (Qmin (camY a) (camY b)); [| exact Hlo].
        apply Q.min_glb; lra.
      + apply Qle_trans with (Qmax (camY a) (camY b)); [exact Hhi |].
        apply Q.max_lub; lra. }
  intros Hall. apply G; [exact Hall |]. cbn. split; discriminate.
Qed.

Lemma camera_height_in_default_range_witness :
  let w := mkWindow (Some 100) None (Some 2000) None (Some 1000) (Some 800) in
  let fs := [ mkFrame None (Some 0) 0 w;
              mkFrame None (Some 5) 16 w;
              mkFrame None (Some (- 3)) 32 w ] in
  forallb noBBox fs = true
  /\ exists r cam,
       rig_run fs (rig_init 0) camera_init = Some (r, cam)
       /\ - (2) <= position_y cam <= 16 # 10.
Proof.
  intros w fs.
  assert (H : forallb noBBox fs = true) by reflexivity.
  split; [exact H | exact (camera_height_in_default_range fs 0 H)].
Defined.

(** ** useModelBBox: what the cache is keyed on *)

Section HookCache.

Context {three : Three}.

Lemma hook_commit_deps (g : GLTF) (h : HookState) :
  effectDeps (hook_commit g h) = Some (gltf_id g).
Proof.
  unfold hook_commit.
  destruct (effectDeps h) as [d |] eqn:Ed; [| apply bboxEffect_deps].
  destruct (Nat.eqb d (gltf_id g)) eqn:E; [| apply bboxEffect_deps].
  apply Nat.eqb_eq in E. rewrite Ed, E. reflexivity.
Qed.

(** X18: the box is cached per asset object.  Committing the same
    asset again changes nothing; committing a different asset
    measures its scene and replaces the box; and a different asset
    that has no scene leaves the previous box in place, with no new
    measurement. *)
Theorem bbox_cache_keyed_on_asset (g g' : GLTF) (h : HookState) :
  hook_commit g (hook_commit g h) = hook_commit g h
  /\ (gltf_id g' <> gltf_id g ->
      match scene g' with
      | Some sc =>
          bbox (hook_commit g' (hook_commit g h)) = Some (measure sc)
          /\ measured (hook_commit g' (hook_commit g h))
             = S (measured (hook_commit g h))
      | None =>
          bbox (hook_commit g' (hook_commit g h)) = bbox (hook_commit g h)
          /\ measured (hook_commit g' (hook_commit g h))
             = measured (hook_commit g h)
      end).
Proof.
  pose proof (hook_commit_deps g h) as Hd.
  split.
  - unfold hook_commit at 1. rewrite Hd, Nat.eqb_refl. reflexivity.
  - intros Hne.
    assert (E : hook_commit g' (hook_commit g h) = bboxEffect g' (hook_commit g h)).
    { unfold hook_commit at 1. rewrite Hd.
      destruct (Nat.eqb (gltf_id g) (gltf_id g')) eqn:E; [| reflexivity].
      apply Nat.eqb_eq in E. congruence. }
    rewrite E. unfold bboxEffect. destruct (scene g'); split; reflexivity.
Qed.

End HookCache.

Lemma bbox_cache_keyed_on_asset_witness :
  let sc := mkBoxScene (mkVector3 (- 1) 0 (- 1)) (mkVector3 1 2 1) 1 in
  let sc' := mkBoxScene (mkVector3 (- 2) 0 (- 2)) (mkVector3 2 4 2) 1 in
  let g := @mkGLTF BoxThree 7%nat (Some sc) in
  let g' := @mkGLTF BoxThree 8%nat (Some sc') in
  @gltf_id BoxThree g' <> @gltf_id BoxThree g
  /\ bbox (@hook_commit BoxThree g' (@hook_commit BoxThree g hook_init))
     = Some (@measure BoxThree sc').
Proof.
  intros sc sc' g g'.
  assert (H : @gltf_id BoxThree g' <> @gltf_id BoxThree g) by (cbn; lia).
  split; [exact H |].
  exact (proj1 (proj2 (@bbox_cache_keyed_on_asset BoxThree g g' hook_init) H)).
Defined.

(** ** The two revisions of the page agree on hover *)

(** X20: the drag revision did not change hover.  Its mouse and touch
    handlers leave [pointerX] exactly as the earlier revision's do,
    and with no drag accumulated the model's three targets are the
    earlier revision's. *)
Theorem hover_unchanged_by_drag_revision
    (x : Q) (ts : option (list Q)) (win : WindowMetrics) (s : PageState) (t px : Q) :
  pointerX (handleMouseMove x win s) = HoverPage.handleMouse x win (pointerX s)
  /\ pointerX (handleTouchMoveHover ts win s) = HoverPage.handleTouch ts win (pointerX s)
  /\ targetCombinedY (modelGoal t px 0) == targetCombinedY (Hover.modelGoal t px)
  /\ targetBaseRotX (modelGoal t px 0) = targetBaseRotX (Hover.modelGoal t px)
  /\ modelTargetY (modelGoal t px 0) = modelTargetY (Hover.modelGoal t px).
Proof.
  split; [| split].
  - unfold handleMouseMove, HoverPage.handleMouse.
    destruct (draggingRef s), (lastXRef s); reflexivity.
  - unfold handleTouchMoveHover, HoverPage.handleTouch.
    destruct (firstTouch ts); [| reflexivity].
    destruct (draggingRef s), (lastXRef s); reflexivity.
  - apply modelGoal_without_drag.
Qed.

(** ** Pointer normalisation *)

(** X21: the hover position maps the window's width onto [-1,1]: in a
    window of positive width the left edge (and anything left of it)
    gives -1, the right edge (and beyond) gives 1, the centre gives
    0, and the value never decreases as the pointer moves right. *)
Theorem pointer_normalisation (w x x' : Q) (win : WindowMetrics) (s : PageState) :
  innerWidth win = Some w -> 0 < w ->
  let nx := fun p => pointerX (handleMouseMove p win s) in
  (x <= 0 -> nx x == - (1))
  /\ (w <= x -> nx x == 1)
  /\ nx (w * (1 # 2)) == 0
  /\ (x <= x' -> nx x <= nx x').
Proof.
  intros Hw Hpos nx.
  assert (Hnx : forall p, nx p = Js.clamp (p / w * 2 - 1) (- (1)) 1).
  { intros p. subst nx. cbv beta. unfold handleMouseMove. rewrite Hw.
    rewrite or_else_nonzero by lra.
    destruct (draggingRef s), (lastXRef s); reflexivity. }
  assert (Hdiv : forall p q, p <= q -> p / w <= q / w).
  { intros p q Hpq. unfold Qdiv. apply Qmult_le_compat_r; [exact Hpq |].
    apply Qlt_le_weak. apply Qinv_lt_0_compat. exact Hpos. }
  assert (H0 : 0 / w == 0) by (unfold Qdiv; ring).
  assert (H1 : w / w == 1) by (field; lra).
  rewrite !Hnx. split; [| split; [| split]].
  - intros Hx. apply clamp_low; [discriminate |].
    pose proof (Hdiv x 0 Hx). lra.
  - intros Hx. apply clamp_high; [discriminate |].
    pose proof (Hdiv w x Hx). lra.
  - assert (E : w * (1 # 2) / w * 2 - 1 == 0) by (field; lra).
    rewrite clamp_id; [exact E | rewrite E; split; discriminate].
  - intros Hxx. apply clamp_mono.
    pose proof (Hdiv x x' Hxx). lra.
Qed.

Lemma pointer_normalisation_witness :
  let win := mkWindow (Some 0) None (Some 2000) None (Some 1000) (Some 800) in
  innerWidth win = Some 800 /\ 0 < 800
  /\ pointerX (handleMouseMove 900 win page_init) == 1.
Proof.
  intros win.
  assert (Hw : innerWidth win = Some 800) by reflexivity.
  assert (Hp : 0 < 800) by reflexivity.
  split; [exact Hw |]. split; [exact Hp |].
  apply (proj1 (proj2 (pointer_normalisation 800 900 900 win page_init Hw Hp))).
  discriminate.
Defined.

(** ** Eased scalars, frame after frame *)












(** ** Listeners and exceptions *)

(** C9: the claim that no event handler can throw fails at
    [onPointerDown].  Whatever the event, a listener leaves the refs as
    [dispatch] says; it ends by throwing exactly when the event is a
    [pointerdown] and the call to [setPointerCapture] throws, because
    that call has nothing around it, while the matching release in
    [onPointerUp] sits in a [try] with an empty [catch] and never lets
    an exception out.  At a [pointerdown] at x = 100 whose capture call
    throws, the handler throws with the drag flag already raised. *)
Theorem onPointerDown_lets_capture_failure_escape
    (e : DomEvent) (c : CaptureCall) (win : WindowMetrics) (s : PageState) :
  exitState (listen e c win s) = dispatch e win s
  /\ (threw (listen e c win s) = true
      <-> (exists x, e = pointerdown x) /\ c = Raises)
  /\ threw (onPointerUp_listener c s) = false
  /\ listen (pointerdown 100) Raises win page_init
     = Thrown (mkPage 0 0 0 true (Some 100)).
Proof.
  split; [| split; [| split]].
  - destruct e; destruct c; reflexivity.
  - split.
    + destruct e as [x | ts | x | x | | | ts |]; destruct c; cbn;
        try discriminate.
      intros _. split; [exists x |]; reflexivity.
    + intros [[x ->] ->]. reflexivity.
  - destruct c; reflexivity.
  - reflexivity.
Qed.
